(** * project-exporter: the traversal-and-export engine of [src/projectExporter.ts]

    A shallow embedding of the class [ProjectExporter] and a verification of
    the properties its specification states about it.

    Modelling conventions.
    - A JavaScript string is a Rocq [string]; one [ascii] stands for one
      character of the JavaScript string.  Text outside ASCII occurs in the
      program only in the two markers of the structure listing, which are kept
      as the bytes of the source literal.
    - The file system below the workspace root is a finite tree ([node]); it
      does not change while one export runs.  A directory lists its entries in
      the order [readdir] returns them.
    - [await] points on file-system calls advance a logical clock ([ticks]);
      the cancellation token becomes (and stays) requested at a given tick.
    - Calls into the host ([console.warn], [progress.report], notifications,
      [writeFile], the clipboard) are recorded, in order, as a trace of
      [effect]s. *)

From Stdlib Require Import String Ascii List Bool Arith ZArith NArith Lia.
From Stdlib Require Import Permutation Sorted DecimalString OrderedTypeEx.
Import ListNotations.
Open Scope string_scope.

(* ================================================================== *)
(** ** Strings *)

Module Str.

Definition lowerChar (c : ascii) : ascii :=
  let n := nat_of_ascii c in
  if ((65 <=? n)%nat && (n <=? 90)%nat)%bool then ascii_of_nat (n + 32) else c.

(** [String.prototype.toLowerCase] on the ASCII letters. *)
Fixpoint toLowerCase (s : string) : string :=
  match s with
  | EmptyString => EmptyString
  | String c s' => String (lowerChar c) (toLowerCase s')
  end.

(** [s.endsWith(suffix)] *)
Fixpoint endsWith (s suffix : string) : bool :=
  String.eqb s suffix ||
  match s with
  | EmptyString => false
  | String _ s' => endsWith s' suffix
  end.

(** [list.includes(x)] on an array of strings *)
Definition includes (l : list string) (x : string) : bool :=
  existsb (String.eqb x) l.

(** [c.repeat(n)] *)
Fixpoint repeat (s : string) (n : nat) : string :=
  match n with
  | O => EmptyString
  | S n' => s ++ repeat s n'
  end.

(** [parts.join(sep)] *)
Fixpoint join (sep : string) (parts : list string) : string :=
  match parts with
  | [] => EmptyString
  | [p] => p
  | p :: rest => p ++ sep ++ join sep rest
  end.

Definition ofN (n : N) : string := NilZero.string_of_uint (N.to_uint n).
Definition ofNat (n : nat) : string := NilZero.string_of_uint (Nat.to_uint n).

Definition nl : string := String (ascii_of_nat 10) EmptyString.
Definition dquote : string := String (ascii_of_nat 34) EmptyString.
Definition backslash : string := String (ascii_of_nat 92) EmptyString.
Definition backtick : string := String (ascii_of_nat 96) EmptyString.

Definition slash : ascii := ascii_of_nat 47.
Definition dot : ascii := ascii_of_nat 46.
Definition star : ascii := ascii_of_nat 42.

Fixpoint contains (c : ascii) (s : string) : bool :=
  match s with
  | EmptyString => false
  | String d s' => Ascii.eqb c d || contains c s'
  end.

End Str.

(* ================================================================== *)
(** ** Paths: the parts of Node's [path] module (POSIX) the exporter uses *)

Module Path.

(** [path.join(dir, item)] for a normalized [dir] and a plain entry name. *)
Definition join (dir item : string) : string :=
  dir ++ String Str.slash item.

Fixpoint stripPrefix (p s : string) : option string :=
  match p with
  | EmptyString => Some s
  | String c p' =>
      match s with
      | EmptyString => None
      | String d s' => if Ascii.eqb c d then stripPrefix p' s' else None
      end
  end.

(** [path.relative(from, to)] for a [to] that lies below [from]: the rest
    of [to] after [from] and the separator. *)
Definition relative (from to : string) : string :=
  match stripPrefix (from ++ String Str.slash EmptyString) to with
  | Some rest => rest
  | None => to
  end.

(** The last component of a path: what follows its last separator. *)
Fixpoint lastComponent (p : string) : string :=
  match p with
  | EmptyString => EmptyString
  | String c p' =>
      if Str.contains Str.slash p then lastComponent p' else p
  end.

(** [path.basename(p)] for a path that does not end in a separator. *)
Definition basename (p : string) : string := lastComponent p.

(** The suffix of a component that starts at its last dot, if it has one. *)
Fixpoint fromLastDot (s : string) : option string :=
  match s with
  | EmptyString => None
  | String c s' =>
      match fromLastDot s' with
      | Some e => Some e
      | None => if Ascii.eqb c Str.dot then Some s else None
      end
  end.

(** [path.extname(p)] for a path that does not end in a separator: from the
    last dot of the last component to its end; empty when the component has
    no dot, when its only dot is its first character, and for [..]. *)
Definition extname (p : string) : string :=
  let comp := lastComponent p in
  match fromLastDot comp with
  | None => EmptyString
  | Some e =>
      if (String.length e =? String.length comp)%nat then EmptyString
      else if String.eqb comp ".." then EmptyString
      else e
  end.

End Path.

(* ================================================================== *)
(** ** Regular expressions: the fragment [new RegExp] receives here

    The ignore patterns reach [RegExp] after [pattern.replace(/\*\*/g, '.*')].
    Their text uses ordinary characters, the dot and the star only, so the
    model covers that fragment: a sequence of atoms (the dot or a literal
    character), each optionally followed by the quantifier [*]. *)

Module RegExp.

Inductive atom : Type :=
| Dot                      (* [.] : any character but a line terminator *)
| Lit (c : ascii).         (* an ordinary character, matching itself *)

Inductive term : Type :=
| Once (a : atom)
| Star (a : atom).         (* [a*], greedy *)

Definition regex : Type := list term.

(** Characters with a meaning of their own in a pattern, the dot and the
    star apart: [\ ^ $ + ? ( ) [ ] { } |]. *)
Definition isOtherSyntaxChar (c : ascii) : bool :=
  Str.contains c "\^$+?()[]{}|".

Definition atomOf (c : ascii) : atom :=
  if Ascii.eqb c Str.dot then Dot else Lit c.

(** [new RegExp(source)]: [None] where the constructor throws (a star with
    nothing to repeat) and for sources outside the fragment. *)
Fixpoint parse (source : string) : option regex :=
  match source with
  | EmptyString => Some []
  | String c rest =>
      if Ascii.eqb c Str.star || isOtherSyntaxChar c then None
      else
        match rest with
        | String q rest' =>
            if Ascii.eqb q Str.star
            then option_map (cons (Star (atomOf c))) (parse rest')
            else option_map (cons (Once (atomOf c))) (parse rest)
        | EmptyString => Some [Once (atomOf c)]
        end
  end.

Definition isLineTerminator (c : ascii) : bool :=
  Ascii.eqb c (ascii_of_nat 10) || Ascii.eqb c (ascii_of_nat 13).

Definition atomMatches (a : atom) (c : ascii) : bool :=
  match a with
  | Dot => negb (isLineTerminator c)
  | Lit d => Ascii.eqb c d
  end.

(** Does the pattern match at the start of [s]?  A starred atom first takes
    as many characters as it can and gives them back one at a time. *)
Fixpoint matchHere (r : regex) (s : string) {struct r} : bool :=
  match r with
  | [] => true
  | Once a :: r' =>
      match s with
      | String c s' => atomMatches a c && matchHere r' s'
      | EmptyString => false
      end
  | Star a :: r' =>
      (fix star (s : string) : bool :=
         match s with
         | String c s' => (atomMatches a c && star s') || matchHere r' s
         | EmptyString => matchHere r' s
         end) s
  end.

(** [regex.test(s)] without flags: a match may start at any index. *)
Fixpoint test (r : regex) (s : string) : bool :=
  matchHere r s ||
  match s with
  | String _ s' => test r s'
  | EmptyString => false
  end.

(** The strings a pattern denotes. *)
Inductive matches : regex -> string -> Prop :=
| matches_nil : matches [] EmptyString
| matches_once a c r s :
    atomMatches a c = true -> matches r s ->
    matches (Once a :: r) (String c s)
| matches_star_done a r s :
    matches r s -> matches (Star a :: r) s
| matches_star_more a c r s :
    atomMatches a c = true -> matches (Star a :: r) s ->
    matches (Star a :: r) (String c s).

End RegExp.

(* ================================================================== *)
(** ** PathFilter: the fixed tables and the three predicates *)

Definition defaultIgnore : list string :=
  [ "**/node_modules/**";
    "**/.git/**";
    "**/dist/**";
    "**/build/**";
    "**/.next/**";
    "**/coverage/**";
    "**/.vscode/**";
    "**/.idea/**";
    "**/out/**";
    "**/bin/**";
    "**/*.lock";
    "**/.DS_Store";
    "**/*.log";
    "**/*.map";
    "**/*.min.js";
    "**/*.min.css";
    "**/vendor/**";
    "**/public/assets/**";
    "**/.cache/**" ].

Definition binaryExtensions : list string :=
  [ ".jpg"; ".jpeg"; ".png"; ".gif"; ".ico"; ".pdf";
    ".exe"; ".dll"; ".so"; ".dylib"; ".bin";
    ".zip"; ".tar"; ".gz"; ".7z"; ".rar";
    ".woff"; ".woff2"; ".ttf"; ".eot";
    ".mp3"; ".mp4"; ".avi"; ".mov";
    ".sqlite"; ".db"; ".dat" ].

Definition languageMap : list (string * string) :=
  [ (".js", "javascript"); (".ts", "typescript"); (".jsx", "javascript");
    (".tsx", "typescript"); (".py", "python"); (".java", "java");
    (".html", "html"); (".css", "css"); (".scss", "scss"); (".json", "json");
    (".md", "markdown"); (".xml", "xml"); (".yaml", "yaml"); (".yml", "yaml");
    (".sh", "shell"); (".bash", "shell"); (".php", "php"); (".rb", "ruby");
    (".go", "go"); (".rs", "rust"); (".cpp", "cpp"); (".c", "c");
    (".cs", "csharp"); (".vue", "vue"); (".svelte", "svelte"); (".sql", "sql");
    (".graphql", "graphql"); (".proto", "protobuf") ].

Definition maxFileSizeBytes : N := 1024 * 1024.

Definition isBinaryPath (filePath : string) : bool :=
  existsb (fun ext => Str.endsWith (Str.toLowerCase filePath) ext)
          binaryExtensions.

Definition quickIgnoreList : list string :=
  [ "node_modules"; ".git"; "dist"; "build"; ".next"; "coverage";
    ".vscode"; ".idea" ].

Definition isQuickIgnored (filename : string) : bool :=
  Str.includes quickIgnoreList filename.

(** [pattern.replace(/\*\*/g, '.*')]: every [**], left to right. *)
Fixpoint replaceDoubleStar (pattern : string) : string :=
  match pattern with
  | EmptyString => EmptyString
  | String c rest =>
      match rest with
      | String d rest' =>
          if Ascii.eqb c Str.star && Ascii.eqb d Str.star
          then ".*" ++ replaceDoubleStar rest'
          else String c (replaceDoubleStar rest)
      | EmptyString => pattern
      end
  end.

(** The callback of [defaultIgnore.some]: build the expression, test the
    path.  The [None] branch stands for the constructor throwing; none of the
    configured patterns takes it ([defaultIgnore_parses]). *)
Definition patternTest (pattern relativePath : string) : bool :=
  match RegExp.parse (replaceDoubleStar pattern) with
  | Some regex => RegExp.test regex relativePath
  | None => false
  end.

Definition isPatternIgnored (relativePath : string) : bool :=
  existsb (fun pattern => patternTest pattern relativePath) defaultIgnore.

Definition lookupLanguage (ext : string) : option string :=
  option_map snd (find (fun kv => String.eqb (fst kv) ext) languageMap).

Definition getLanguageId (filePath : string) : string :=
  let ext := Str.toLowerCase (Path.extname filePath) in
  match lookupLanguage ext with
  | Some tag => tag
  | None => EmptyString
  end.

(** The reading of a pattern that the specification gives: each [**] stands
    for any sequence of characters, every other character for itself. *)
Module SpecPattern.

Inductive token : Type :=
| AnySequence
| Literal (c : ascii).

Fixpoint tokens (pattern : string) : list token :=
  match pattern with
  | EmptyString => []
  | String c rest =>
      match rest with
      | String d rest' =>
          if Ascii.eqb c Str.star && Ascii.eqb d Str.star
          then AnySequence :: tokens rest'
          else Literal c :: tokens rest
      | EmptyString => [Literal c]
      end
  end.

(** Do the tokens match the whole of [s]? *)
Fixpoint matchAll (ts : list token) (s : string) {struct ts} : bool :=
  match ts with
  | [] => match s with EmptyString => true | _ => false end
  | Literal c :: ts' =>
      match s with
      | String d s' => Ascii.eqb c d && matchAll ts' s'
      | EmptyString => false
      end
  | AnySequence :: ts' =>
      (fix skip (s : string) : bool :=
         matchAll ts' s ||
         match s with
         | String _ s' => skip s'
         | EmptyString => false
         end) s
  end.

(** Do they match somewhere inside [s]? *)
Definition matchWithin (ts : list token) (s : string) : bool :=
  matchAll (AnySequence :: ts ++ [AnySequence]) s.

End SpecPattern.

(* ================================================================== *)
(** ** The file system, the records and the host *)

(** An entry of the tree, as [stat], [readdir] and [readFile] see it. *)
#[warnings="-register-all"]
Inductive node : Type :=
| File (size : N) (mtime : Z) (text : option string)
    (* [text = None]: [readFile] fails *)
| Directory (listing : option (list (string * node)))
    (* [listing = None]: [readdir] fails *)
| Unreachable.
    (* [stat] fails, as for a dangling link *)

Record Stats : Type := { isDirectory : bool; statSize : N; statMtime : Z }.

Definition stat (n : node) : option Stats :=
  match n with
  | File size mtime _ =>
      Some {| isDirectory := false; statSize := size; statMtime := mtime |}
  | Directory _ =>
      Some {| isDirectory := true; statSize := 0%N; statMtime := 0%Z |}
  | Unreachable => None
  end.

Definition readFile (n : node) : option string :=
  match n with
  | File _ _ text => text
  | _ => None
  end.

(** Entry names are single path components: they hold no separator. *)
Fixpoint wellNamed (n : node) : bool :=
  match n with
  | Directory (Some items) =>
      forallb (fun e => negb (Str.contains Str.slash (fst e)) && wellNamed (snd e))
              items
  | _ => true
  end.

(** Every entry can be described by [stat] and every directory listed. *)
Fixpoint readable (n : node) : bool :=
  match n with
  | File _ _ _ => true
  | Directory (Some items) => forallb (fun e => readable (snd e)) items
  | Directory None => false
  | Unreachable => false
  end.

(** [FileData] of [./types], with the fields [collectFiles] fills in. *)
Record FileData : Type := {
  path : string;
  content : string;
  language : string;
  size : N;
  lastModified : Z
}.

Inductive error : Type :=
| ReaddirError (dir : string)
| StatError (fullPath : string)
| ReadFileError (fullPath : string)
| WriteFileError (fsPath : string)
| Error (message : string)
| TypeError (property : string).   (* reading [property] of [undefined] *)

(** A JavaScript number that is a quotient of two naturals. *)
Inductive number : Type :=
| Quotient (num : N) (den : positive)
| Infinity
| NaN.

Definition divide (a b : N) : number :=
  match b with
  | Npos d => Quotient a d
  | N0 => if (a =? 0)%N then NaN else Infinity
  end.

Inductive effect : Type :=
| ConsoleWarn (message : string) (cause : option error)
| ProgressReport (message : string) (increment : number)
| ShowInformationMessage (message : string)
| ShowErrorMessage (prefix : string) (cause : error)
| WriteFile (fsPath : string) (data : string)
| ClipboardWriteText (text : string).

Inductive result (A : Type) : Type :=
| Ok (value : A)
| Throw (e : error).
Arguments Ok {A} value.
Arguments Throw {A} e.

Definition bind {A B : Type} (r : result A) (k : A -> result B) : result B :=
  match r with
  | Ok a => k a
  | Throw e => Throw e
  end.

Notation "x <- r ;; k" := (bind r (fun x => k))
  (at level 61, r at next level, right associativity).

(** [array.push(x)] *)
Definition push {A : Type} (l : list A) (x : A) : list A := (l ++ [x])%list.

(** The cancellation token: the tick at which cancellation is requested, if
    it ever is.  Once requested it stays requested. *)
Definition CancellationToken : Type := option nat.

Definition isCancellationRequested (token : CancellationToken) (now : nat) : bool :=
  match token with
  | Some t => (t <=? now)%nat
  | None => false
  end.

(* ================================================================== *)
(** ** DirectoryWalker: the counting pass and the scanning pass *)

(** The variables the two closures of [collectFiles] share, the clock and
    the trace. *)
Record scan : Type := {
  files : list FileData;
  scannedFiles : nat;
  totalFiles : nat;
  ticks : nat;
  trace : list effect
}.

Definition tick (st : scan) : scan :=
  {| files := files st; scannedFiles := scannedFiles st;
     totalFiles := totalFiles st; ticks := S (ticks st); trace := trace st |}.

Definition emit (e : effect) (st : scan) : scan :=
  {| files := files st; scannedFiles := scannedFiles st;
     totalFiles := totalFiles st; ticks := ticks st;
     trace := push (trace st) e |}.

Definition incrTotalFiles (st : scan) : scan :=
  {| files := files st; scannedFiles := scannedFiles st;
     totalFiles := S (totalFiles st); ticks := ticks st; trace := trace st |}.

Definition incrScannedFiles (st : scan) : scan :=
  {| files := files st; scannedFiles := S (scannedFiles st);
     totalFiles := totalFiles st; ticks := ticks st; trace := trace st |}.

Definition pushFile (f : FileData) (st : scan) : scan :=
  {| files := push (files st) f; scannedFiles := scannedFiles st;
     totalFiles := totalFiles st; ticks := ticks st; trace := trace st |}.

Definition scanningMessage (relativePath : string) (st : scan) : string :=
  "Scanning: " ++ relativePath ++ " (" ++ Str.ofNat (scannedFiles st) ++ "/"
  ++ Str.ofNat (totalFiles st) ++ ")".

Definition reportScanning (relativePath : string) (st : scan) : scan :=
  emit (ProgressReport (scanningMessage relativePath st)
                       (divide 100 (N.of_nat (totalFiles st)))) st.

Section Walker.

Variable rootPath : string.
Variable token : CancellationToken.

(** The loop of [countFiles(dir)] over the entries of [dir]; [recurse] is
    [countFiles] itself, called on a subdirectory.  A failing [stat] leaves
    the loop through the [catch] of the directory. *)
Definition countLoop (recurse : node -> string -> scan -> scan) (dir : string)
  : list (string * node) -> scan -> scan :=
  fix loop (items : list (string * node)) (st : scan) {struct items} : scan :=
    match items with
    | [] => st
    | (item, child) :: rest =>
        if isCancellationRequested token (ticks st) then st
        else
          let fullPath := Path.join dir item in
          if isQuickIgnored item then loop rest st
          else
            match stat child with
            | None =>
                emit (ConsoleWarn ("Error counting files in " ++ dir ++ ":")
                                  (Some (StatError fullPath)))
                     (tick st)
            | Some s =>
                if isDirectory s
                then loop rest (recurse child fullPath (tick st))
                else loop rest (incrTotalFiles (tick st))
            end
    end.

(** [countFiles(dir)]; [n] is the entry at [dir]. *)
Fixpoint countFiles (n : node) (dir : string) (st : scan) {struct n} : scan :=
  match n with
  | Directory (Some items) => countLoop countFiles dir items (tick st)
  | _ =>
      emit (ConsoleWarn ("Error counting files in " ++ dir ++ ":")
                        (Some (ReaddirError dir)))
           (tick st)
  end.

(** The body of the scanning loop for a file that [stat] has described. *)
Definition scanFile (child : node) (fullPath relativePath : string)
           (s : Stats) (st : scan) : scan :=
  if (maxFileSizeBytes <? statSize s)%N
  then emit (ConsoleWarn ("Skipping large file: " ++ relativePath) None) st
  else if negb (isBinaryPath fullPath)
  then
    match readFile child with
    | Some text =>
        pushFile {| path := relativePath;
                    content := text;
                    language := getLanguageId fullPath;
                    size := statSize s;
                    lastModified := statMtime s |}
                 (tick st)
    | None =>
        emit (ConsoleWarn ("Failed to read file: " ++ relativePath)
                          (Some (ReadFileError fullPath)))
             (tick st)
    end
  else st.

(** The loop of [traverse(dir)] over the entries of [dir]; [recurse] is
    [traverse] itself, called on a subdirectory. *)
Definition traverseLoop (recurse : node -> string -> scan -> scan)
           (dir : string) : list (string * node) -> scan -> scan :=
  fix loop (items : list (string * node)) (st : scan) {struct items} : scan :=
    match items with
    | [] => st
    | (item, child) :: rest =>
        if isCancellationRequested token (ticks st) then st
        else
          let fullPath := Path.join dir item in
          let relativePath := Path.relative rootPath fullPath in
          if isQuickIgnored item then loop rest st
          else if isPatternIgnored relativePath then loop rest st
          else
            match stat child with
            | None =>
                emit (ConsoleWarn ("Error processing directory " ++ dir ++ ":")
                                  (Some (StatError fullPath)))
                     (tick st)
            | Some s =>
                let st := reportScanning relativePath
                            (incrScannedFiles (tick st)) in
                if isDirectory s
                then loop rest (recurse child fullPath st)
                else loop rest (scanFile child fullPath relativePath s st)
            end
    end.

(** [traverse(dir)] of [collectFiles]; [n] is the entry at [dir]. *)
Fixpoint traverse (n : node) (dir : string) (st : scan) {struct n} : scan :=
  match n with
  | Directory (Some items) => traverseLoop traverse dir items (tick st)
  | _ =>
      emit (ConsoleWarn ("Error processing directory " ++ dir ++ ":")
                        (Some (ReaddirError dir)))
           (tick st)
  end.

Definition initialScan (now : nat) (tr : list effect) : scan :=
  {| files := []; scannedFiles := 0; totalFiles := 0;
     ticks := now; trace := tr |}.

(** [collectFiles(rootPath, progress, token)], started at tick [now] with
    the trace [tr] behind it; the state it ends in.  The list it returns is
    [files] of that state. *)
Definition collectFilesRun (root : node) (now : nat) (tr : list effect) : scan :=
  traverse root rootPath (countFiles root rootPath (initialScan now tr)).

Definition collectFiles (root : node) (now : nat) (tr : list effect)
  : list FileData :=
  files (collectFilesRun root now tr).

End Walker.

(* ================================================================== *)
(** ** Host formatting: dates, fixed-point numbers, JSON text *)

Module Host.

(** A natural in decimal, padded with zeros on the left to [width]. *)
Definition pad (width : nat) (n : Z) : string :=
  let digits := Str.ofN (Z.to_N n) in
  Str.repeat "0" (width - String.length digits) ++ digits.

Definition yearString (y : Z) : string :=
  if ((0 <=? y) && (y <=? 9999))%Z then pad 4 y
  else (if (y <? 0)%Z then "-" else "+") ++ pad 6 (Z.abs y).

(** [Date.prototype.toISOString] of the date whose time value is [t]
    milliseconds since the epoch (proleptic Gregorian calendar, UTC). *)
Definition toISOString (t : Z) : string :=
  let days := (t / 86400000)%Z in
  let ms := (t mod 86400000)%Z in
  let z := (days + 719468)%Z in
  let era := (z / 146097)%Z in
  let doe := (z mod 146097)%Z in
  let yoe := ((doe - doe / 1460 + doe / 36524 - doe / 146096) / 365)%Z in
  let doy := (doe - (365 * yoe + yoe / 4 - yoe / 100))%Z in
  let mp := ((5 * doy + 2) / 153)%Z in
  let d := (doy - (153 * mp + 2) / 5 + 1)%Z in
  let m := (if mp <? 10 then mp + 3 else mp - 9)%Z in
  let y := (yoe + era * 400 + (if m <=? 2 then 1 else 0))%Z in
  yearString y ++ "-" ++ pad 2 m ++ "-" ++ pad 2 d ++ "T"
  ++ pad 2 (ms / 3600000) ++ ":" ++ pad 2 ((ms / 60000) mod 60) ++ ":"
  ++ pad 2 ((ms / 1000) mod 60) ++ "." ++ pad 3 (ms mod 1000) ++ "Z".

(** [(size / 1024).toFixed(2)]: the quotient is exact in binary floating
    point for every size below 2^53, and [toFixed] rounds it to the nearest
    hundredth, a tie going up. *)
Definition kilobytesToFixed2 (size : N) : string :=
  let n := ((200 * size + 1024) / 2048)%N in
  Str.ofN (n / 100) ++ "." ++ pad 2 (Z.of_N (n mod 100)).

#[warnings="-register-all"]
Inductive json : Type :=
| JString (s : string)
| JNumber (n : N)
| JArray (elements : list json)
| JObject (properties : list (string * json)).

Definition hexDigit (n : nat) : string :=
  String.substring n 1 "0123456789abcdef".

(** One character inside a JSON string literal. *)
Definition escapeChar (c : ascii) : string :=
  let n := nat_of_ascii c in
  if (n =? 34)%nat then Str.backslash ++ Str.dquote
  else if (n =? 92)%nat then Str.backslash ++ Str.backslash
  else if (n =? 8)%nat then Str.backslash ++ "b"
  else if (n =? 12)%nat then Str.backslash ++ "f"
  else if (n =? 10)%nat then Str.backslash ++ "n"
  else if (n =? 13)%nat then Str.backslash ++ "r"
  else if (n =? 9)%nat then Str.backslash ++ "t"
  else if (n <? 32)%nat
  then Str.backslash ++ "u00" ++ hexDigit (n / 16) ++ hexDigit (n mod 16)
  else String c EmptyString.

Fixpoint escape (s : string) : string :=
  match s with
  | EmptyString => EmptyString
  | String c s' => escapeChar c ++ escape s'
  end.

Definition quote (s : string) : string :=
  Str.dquote ++ escape s ++ Str.dquote.

Definition gap : string := "  ".

(** [JSON.stringify(value, null, 2)] below the indentation [indent]. *)
Fixpoint serialize (indent : string) (v : json) {struct v} : string :=
  let inner := indent ++ gap in
  let separator := "," ++ Str.nl ++ inner in
  match v with
  | JString s => quote s
  | JNumber n => Str.ofN n
  | JArray [] => "[]"
  | JArray elements =>
      "[" ++ Str.nl ++ inner
      ++ Str.join separator (map (serialize inner) elements)
      ++ Str.nl ++ indent ++ "]"
  | JObject [] => "{}"
  | JObject properties =>
      "{" ++ Str.nl ++ inner
      ++ Str.join separator
           (map (fun kv => quote (fst kv) ++ ": " ++ serialize inner (snd kv))
                properties)
      ++ Str.nl ++ indent ++ "}"
  end.

Definition stringify (v : json) : string := serialize EmptyString v.

End Host.

(* ================================================================== *)
(** ** OutputFormatter *)

Inductive ExportFormat : Type := Markdown | JSON | Text.

Definition fileToJson (f : FileData) : Host.json :=
  Host.JObject
    [ ("path", Host.JString (path f));
      ("content", Host.JString (content f));
      ("language", Host.JString (language f));
      ("size", Host.JNumber (size f));
      ("lastModified", Host.JString (Host.toISOString (lastModified f))) ].

Definition fence : string := Str.repeat Str.backtick 3.

(** [formatOutput(files, structure, format)]; [now] is the time value that
    [new Date()] reads from the clock. *)
Definition formatOutput (now : Z) (files : list FileData) (structure : string)
           (format : ExportFormat) : string :=
  match format with
  | JSON =>
      Host.stringify
        (Host.JObject
           [ ("exportDate", Host.JString (Host.toISOString now));
             ("structure", Host.JString structure);
             ("files", Host.JArray (map fileToJson files)) ])
  | Text =>
      let txtOutput := "PROJECT EXPORT" ++ Str.nl ++ Str.nl in
      let txtOutput := txtOutput ++ "PROJECT STRUCTURE:" ++ Str.nl ++ Str.nl
                       ++ structure ++ Str.nl ++ Str.nl in
      let txtOutput := txtOutput ++ "FILES:" ++ Str.nl ++ Str.nl in
      fold_left
        (fun txtOutput file =>
           let txtOutput := txtOutput ++ "=== " ++ path file ++ " ==="
                            ++ Str.nl ++ Str.nl in
           let txtOutput := txtOutput ++ content file ++ Str.nl ++ Str.nl in
           txtOutput ++ Str.repeat "=" 40 ++ Str.nl ++ Str.nl)
        files txtOutput
  | Markdown =>
      let output := "# Project Export" ++ Str.nl ++ Str.nl in
      let output := output ++ "## Project Structure" ++ Str.nl ++ Str.nl
                    ++ fence ++ Str.nl ++ structure ++ Str.nl ++ fence
                    ++ Str.nl ++ Str.nl in
      let output := output ++ "## Files" ++ Str.nl ++ Str.nl in
      fold_left
        (fun output file =>
           let output := output ++ "### " ++ path file ++ Str.nl in
           let output := output ++ "Last modified: "
                         ++ Host.toISOString (lastModified file) ++ Str.nl in
           let output := output ++ "Size: "
                         ++ Host.kilobytesToFixed2 (size file) ++ " KB"
                         ++ Str.nl ++ Str.nl in
           let output := output ++ fence ++ language file ++ Str.nl in
           output ++ content file ++ Str.nl ++ fence ++ Str.nl ++ Str.nl)
        files output
  end.

(* ================================================================== *)
(** ** The structure-building traversal *)

(** The two markers of the listing, as the bytes of the source literals. *)
Definition bytes (codes : list nat) : string :=
  fold_right (fun n s => String (ascii_of_nat n) s) EmptyString codes.

Definition dirMarker : string := bytes [195; 176; 197; 184; 226; 128; 156; 32].
Definition fileMarker : string :=
  bytes [195; 176; 197; 184; 226; 128; 156; 226; 128; 158; 32].

Arguments dirMarker : simpl never.
Arguments fileMarker : simpl never.

(** [Array.prototype.sort(compare)]: a stable sort; an exception of the
    comparator leaves the sort.  An array of fewer than two elements is
    returned without a call of the comparator. *)
Section Sort.

Context {A : Type}.
Variable compare : A -> A -> result Z.

Fixpoint insertSorted (x : A) (sorted : list A) : result (list A) :=
  match sorted with
  | [] => Ok [x]
  | y :: rest =>
      c <- compare x y ;;
      if (c <=? 0)%Z then Ok (x :: sorted)
      else (r <- insertSorted x rest ;; Ok (y :: r))
  end.

Fixpoint sort (l : list A) : result (list A) :=
  match l with
  | [] => Ok []
  | x :: rest => s <- sort rest ;; insertSorted x s
  end.

End Sort.

Section Structure.

(** [a.localeCompare(b)], the collation of the host. *)
Variable localeCompare : string -> string -> Z.

Variable rootPath : string.

(** [traverse(fullPath, prefix)] on a child, with the listing so far. *)
Definition walker : Type := string -> string -> list string -> result (list string).

(** A directory entry together with the traversal of its subtree. *)
Definition entry : Type := (string * node * walker)%type.

Definition entryName (e : entry) : string := fst (fst e).
Definition entryNode (e : entry) : node := snd (fst e).
Definition entryWalk (e : entry) : walker := snd e.

(** [fs.statSync(path.join(dir, a)).isDirectory()] *)
Definition statSyncIsDirectory (dir : string) (e : entry) : result bool :=
  match stat (entryNode e) with
  | Some s => Ok (isDirectory s)
  | None => Throw (StatError (Path.join dir (entryName e)))
  end.

(** The comparator handed to [files.sort]. *)
Definition compareEntries (dir : string) (a b : entry) : result Z :=
  aIsDir <- statSyncIsDirectory dir a ;;
  bIsDir <- statSyncIsDirectory dir b ;;
  if aIsDir && negb bIsDir then Ok (-1)%Z
  else if negb aIsDir && bIsDir then Ok 1%Z
  else Ok (localeCompare (entryName a) (entryName b)).

(** The loop over the sorted entries; [items] is the array of lines. *)
Fixpoint structureLoop (dir prefix : string) (sorted : list entry)
         (items : list string) {struct sorted} : result (list string) :=
  match sorted with
  | [] => Ok items
  | e :: rest =>
      let file := entryName e in
      let fullPath := Path.join dir file in
      let relativePath := Path.relative rootPath fullPath in
      if isQuickIgnored file then structureLoop dir prefix rest items
      else if isPatternIgnored relativePath
      then structureLoop dir prefix rest items
      else
        match stat (entryNode e) with
        | None => Throw (StatError fullPath)
        | Some s =>
            if isDirectory s
            then
              items' <- entryWalk e fullPath (prefix ++ "  ")
                          (push items (prefix ++ dirMarker ++ file)) ;;
              structureLoop dir prefix rest items'
            else if negb (isBinaryPath fullPath)
            then structureLoop dir prefix rest
                   (push items (prefix ++ fileMarker ++ file))
            else structureLoop dir prefix rest items
        end
  end.

(** [traverse(dir, prefix)] of [getProjectStructure]; [n] is the entry at
    [dir].  Nothing is caught here. *)
Fixpoint structureTraverse (n : node) {struct n} : walker :=
  fun dir prefix items =>
    match n with
    | Directory (Some listing) =>
        sorted <- sort (compareEntries dir)
                    (map (fun e => (fst e, snd e, structureTraverse (snd e)))
                         listing) ;;
        structureLoop dir prefix sorted items
    | _ => Throw (ReaddirError dir)
    end.

Definition getProjectStructure (root : node) : result string :=
  items <- structureTraverse root rootPath EmptyString [] ;;
  Ok (Str.join Str.nl items).

End Structure.

(* ================================================================== *)
(** ** The two commands *)

(** What the host supplies to one run of [exportProject].
    [workspaceFolders] is [None] for [undefined]; an array is the list of
    the [uri.fsPath] of its folders, and may be empty. *)
Record Workbench : Type := {
  workspaceFolders : option (list string);
  pickedFormat : option ExportFormat;    (* the answer to [showQuickPick] *)
  savePath : option string;              (* the answer to [showSaveDialog] *)
  root : node;                           (* the tree at the workspace root *)
  cancellation : CancellationToken;
  clock : Z;                             (* the time [new Date()] reads *)
  elapsed : string;                      (* the seconds shown on completion *)
  writeFails : bool                      (* does [writeFile] reject? *)
}.

Definition extensionOf (format : ExportFormat) : string :=
  match format with
  | Markdown => "md"
  | JSON => "json"
  | Text => "txt"
  end.

Section ExportCommand.

Variable localeCompare : string -> string -> Z.

(** The callback of [withProgress], after its first report: what it leaves
    in the trace and how it ends. *)
Definition exportTask (w : Workbench) (rootPath fsPath : string)
           (format : ExportFormat) : list effect * result unit :=
  let tr := [ProgressReport "Scanning project..." (divide 0 1)] in
  let st := collectFilesRun rootPath (cancellation w) (root w) 0 tr in
  let found := files st in
  let tr := trace st in
  if isCancellationRequested (cancellation w) (ticks st)
  then (push tr (ShowInformationMessage "Export cancelled"), Ok tt)
  else
    let tr := push tr (ProgressReport
                         ("Found " ++ Str.ofNat (List.length found)
                          ++ " files. Generating output...")
                         (divide 50 1)) in
    match getProjectStructure localeCompare rootPath (root w) with
    | Throw e => (push tr (ShowErrorMessage "Export failed: " e), Throw e)
    | Ok structure =>
        let output := formatOutput (clock w) found structure format in
        let tr := push tr (ProgressReport "Saving file..." (divide 75 1)) in
        if writeFails w
        then (push tr (ShowErrorMessage "Export failed: "
                                        (WriteFileError fsPath)),
              Throw (WriteFileError fsPath))
        else
          (push (push tr (WriteFile fsPath output))
                (ShowInformationMessage
                   ("Export complete! Processed "
                    ++ Str.ofNat (List.length found) ++ " files in "
                    ++ elapsed w ++ "s")),
           Ok tt)
    end.

(** [exportProject()].  The guard [!workspaceFolders] lets an empty array
    through: [workspaceFolders[0]] is then [undefined] and reading its [uri]
    throws, before the [try]. *)
Definition exportProject (w : Workbench) : list effect * result unit :=
  match workspaceFolders w with
  | None => ([], Throw (Error "No workspace folder open"))
  | Some [] => ([], Throw (TypeError "uri"))
  | Some (rootPath :: _) =>
      match pickedFormat w with
      | None => ([], Ok tt)
      | Some format =>
          match savePath w with
          | None => ([], Ok tt)
          | Some fsPath => exportTask w rootPath fsPath format
          end
      end
  end.

End ExportCommand.

Inductive QuickExportFormat : Type := QuickMarkdown | QuickText.

Record TextDocument : Type := {
  fileName : string;
  languageId : string;
  text : string
}.

(** A selection, by the offsets of its two ends in the text. *)
Record Selection : Type := { selStart : nat; selEnd : nat }.

Definition isEmpty (s : Selection) : bool := (selStart s =? selEnd s)%nat.

(** [document.getText(selection)] *)
Definition getTextIn (d : TextDocument) (s : Selection) : string :=
  String.substring (selStart s) (selEnd s - selStart s) (text d).

Record TextEditor : Type := { document : TextDocument; selection : Selection }.

Definition quickExportOutput (format : QuickExportFormat) (d : TextDocument)
           (content : string) : string :=
  match format with
  | QuickText => "FILE: " ++ fileName d ++ Str.nl ++ Str.nl ++ content
  | QuickMarkdown =>
      "# Quick Export" ++ Str.nl ++ Str.nl ++ "## File: " ++ fileName d
      ++ Str.nl ++ Str.nl ++ fence ++ languageId d ++ Str.nl ++ content
      ++ Str.nl ++ fence
  end.

Definition formatName (format : QuickExportFormat) : string :=
  match format with
  | QuickMarkdown => "Markdown"
  | QuickText => "Text"
  end.

Definition quickExport (activeTextEditor : option TextEditor)
           (picked : option QuickExportFormat) : list effect * result unit :=
  match activeTextEditor with
  | None => ([], Throw (Error "No active editor"))
  | Some editor =>
      match picked with
      | None => ([], Ok tt)
      | Some format =>
          let d := document editor in
          let content :=
            if isEmpty (selection editor) then text d
            else getTextIn d (selection editor) in
          let output := quickExportOutput format d content in
          ([ClipboardWriteText output;
            ShowInformationMessage
              ("Quick export (" ++ formatName format
               ++ ") copied to clipboard!")],
           Ok tt)
      end
  end.

(* ================================================================== *)
(** ** Induction on the tree *)

Section NodeInduction.

Variable P : node -> Prop.
Hypothesis HFile : forall size mtime text, P (File size mtime text).
Hypothesis HDenied : P (Directory None).
Hypothesis HDirectory :
  forall items, Forall (fun e => P (snd e)) items -> P (Directory (Some items)).
Hypothesis HUnreachable : P Unreachable.

Fixpoint node_induction (n : node) : P n :=
  match n with
  | File size mtime text => HFile size mtime text
  | Directory None => HDenied
  | Directory (Some items) =>
      HDirectory items
        ((fix all (l : list (string * node)) : Forall (fun e => P (snd e)) l :=
            match l with
            | [] => Forall_nil _
            | e :: l' => Forall_cons e (node_induction (snd e)) (all l')
            end) items)
  | Unreachable => HUnreachable
  end.

End NodeInduction.

(* ================================================================== *)
(** ** Vocabulary of the statements *)

(** The directories the walk reaches: the root and the paths below it. *)
Definition inside (rootPath dir : string) : Prop :=
  dir = rootPath \/ exists rel, dir = Path.join rootPath rel.

(** The relative path of an entry of [dir]: the entry name, after the
    relative path of [dir] if [dir] is not the root. *)
Definition entryOf (item relativePath : string) : Prop :=
  relativePath = item \/ exists rel, relativePath = Path.join rel item.

(** What the specification requires of every record of a scan. *)
Definition accepted (rootPath : string) (f : FileData) : Prop :=
  isQuickIgnored (Path.basename (path f)) = false /\
  isPatternIgnored (path f) = false /\
  isBinaryPath (Path.join rootPath (path f)) = false /\
  ~ In (Str.toLowerCase (Path.extname (path f))) binaryExtensions /\
  (size f <= maxFileSizeBytes)%N.

(** What the scanning pass may add to the trace when the counting pass has
    left [total] in [totalFiles]. *)
Definition scanEffect (total : nat) (e : effect) : Prop :=
  match e with
  | ConsoleWarn _ _ => True
  | ProgressReport message increment =>
      increment = divide 100 (N.of_nat total) /\
      exists relativePath scanned,
        message = "Scanning: " ++ relativePath ++ " (" ++ Str.ofNat scanned
                  ++ "/" ++ Str.ofNat total ++ ")"
  | _ => False
  end.

(** [st'] continues [st]: records and effects are only added, the clock only
    advances, the total stays; under [C] the added records are accepted. *)
Definition extends (rootPath : string) (C : Prop) (st st' : scan) : Prop :=
  (exists more, files st' = (files st ++ more)%list /\
                Forall (fun f => (size f <= maxFileSizeBytes)%N) more /\
                (C -> Forall (accepted rootPath) more)) /\
  (exists more, trace st' = (trace st ++ more)%list /\
                Forall (scanEffect (totalFiles st)) more) /\
  ticks st <= ticks st' /\
  totalFiles st' = totalFiles st.

(** What the counting pass may do: warn, and advance the clock. *)
Definition counted (st st' : scan) : Prop :=
  files st' = files st /\ ticks st <= ticks st' /\
  exists more, trace st' = (trace st ++ more)%list /\
               Forall (fun e => exists m c, e = ConsoleWarn m c) more.

Definition plainNames (items : list (string * node)) : bool :=
  forallb (fun e => negb (Str.contains Str.slash (fst e)) && wellNamed (snd e))
          items.

(** [st2] holds every record of [st1], in the same order, and maybe more. *)
Definition keepsFiles (st1 st2 : scan) : Prop :=
  exists more, files st2 = (files st1 ++ more)%list.

(** How a run under a token relates to the run nobody cancels: they are the
    same run, or the first stopped on a requested cancellation with a prefix
    of the records. *)
Definition cutShort (token : CancellationToken) (st1 st2 : scan) : Prop :=
  st1 = st2 \/
  (isCancellationRequested token (ticks st1) = true /\ keepsFiles st1 st2).

Definition firstReport : effect := ProgressReport "Scanning project..." (divide 0 1).

(** The states in which the loop of [traverse(dir)] reads
    [token.isCancellationRequested] when nobody cancels, in the order of the
    run, those of the nested calls included; [recurse] is [polls] itself. *)
Definition pollsLoop (rootPath : string)
           (recurse : node -> string -> scan -> list scan) (dir : string)
  : list (string * node) -> scan -> list scan :=
  fix loop (items : list (string * node)) (st : scan) {struct items}
    : list scan :=
    match items with
    | [] => []
    | (item, child) :: rest =>
        st ::
        (let fullPath := Path.join dir item in
         let relativePath := Path.relative rootPath fullPath in
         if isQuickIgnored item then loop rest st
         else if isPatternIgnored relativePath then loop rest st
         else
           match stat child with
           | None => []
           | Some s =>
               let st := reportScanning relativePath
                           (incrScannedFiles (tick st)) in
               if isDirectory s
               then (recurse child fullPath st
                     ++ loop rest (traverse rootPath None child fullPath st))%list
               else loop rest (scanFile child fullPath relativePath s st)
           end)
    end.

Fixpoint polls (rootPath : string) (n : node) (dir : string) (st : scan)
         {struct n} : list scan :=
  match n with
  | Directory (Some items) =>
      pollsLoop rootPath (polls rootPath) dir items (tick st)
  | _ => []
  end.

(** The state of the first of the polls [ps] at which a request made at tick
    [t] is seen, or [final] when none of them sees it. *)
Definition stoppedAt (t : nat) (ps : list scan) (final : scan) : scan :=
  match find (fun p => isCancellationRequested (Some t) (ticks p)) ps with
  | Some p => p
  | None => final
  end.

(** The two tests that make the scanning loop skip an entry of [dir]
    without a look at it. *)
Definition skipped (rootPath dir item : string) : bool :=
  isQuickIgnored item
  || isPatternIgnored (Path.relative rootPath (Path.join dir item)).

(** [q] comes no earlier than [p] in a run and holds every record of [p],
    in the same order. *)
Definition later (p q : scan) : Prop :=
  ticks p <= ticks q /\ keepsFiles p q.

(** The polls [ps] of a run from [start] to [final] come in the order of
    the run, and a run that a request at tick [t] stops at one of them
    keeps the records of every poll made before [t]. *)
Definition keptFrom (t : nat) (start : scan) (ps : list scan) (final : scan)
  : Prop :=
  Forall (later start) ps /\
  Forall (fun p => later p final) ps /\
  later start final /\
  forall final', later final final' ->
    forall p, In p ps -> ticks p < t -> keepsFiles p (stoppedAt t ps final').

Definition isDirectoryNode (n : node) : bool :=
  match n with
  | Directory _ => true
  | _ => false
  end.

(** The order of the structure listing: a directory before a file, and
    within each group the collation order of the names. *)
Definition entryBefore (localeCompare : string -> string -> Z)
           (a b : string * node) : Prop :=
  (isDirectoryNode (snd a) = true /\ isDirectoryNode (snd b) = false) \/
  (isDirectoryNode (snd a) = isDirectoryNode (snd b) /\
   (localeCompare (fst a) (fst b) <= 0)%Z).

(** The entries of [dir] that the structure listing shows. *)
Definition listed (rootPath dir : string) (e : string * node) : bool :=
  negb (isQuickIgnored (fst e)) &&
  negb (isPatternIgnored (Path.relative rootPath (Path.join dir (fst e)))) &&
  (isDirectoryNode (snd e) || negb (isBinaryPath (Path.join dir (fst e)))).

Definition entryLine (prefix : string) (e : string * node) : string :=
  prefix ++ (if isDirectoryNode (snd e) then dirMarker else fileMarker) ++ fst e.

(** What one shown entry contributes: its line, then, for a directory, the
    listing of what is below it, two spaces deeper. *)
Definition blockOf (localeCompare : string -> string -> Z)
           (rootPath dir prefix : string)
           (child : string * node) (block : list string) : Prop :=
  exists below,
    block = entryLine prefix child :: below /\
    if isDirectoryNode (snd child)
    then structureTraverse localeCompare rootPath (snd child)
           (Path.join dir (fst child)) (prefix ++ "  ") [] = Ok below
    else below = [].

(** A traversal appends its lines to the lines it is given. *)
Definition additive (w : walker) : Prop :=
  forall dir prefix items,
    w dir prefix items = (lines <- w dir prefix [] ;; Ok (items ++ lines)%list).

(** [fileAt rootPath n dir prefix fullPath name linePrefix size mtime text]:
    below the directory [n] at [dir], whose entries the structure listing
    writes after [prefix], there is a file entry [name] at [fullPath], of
    that size, time and text, written after [linePrefix]; neither the entry
    nor a directory on the way down to it is quick-ignored or
    pattern-ignored. *)
Inductive fileAt (rootPath : string) :
  node -> string -> string -> string -> string -> string ->
  N -> Z -> option string -> Prop :=
| fileAt_here listing dir prefix item size mtime text :
    In (item, File size mtime text) listing ->
    isQuickIgnored item = false ->
    isPatternIgnored (Path.relative rootPath (Path.join dir item)) = false ->
    fileAt rootPath (Directory (Some listing)) dir prefix
           (Path.join dir item) item prefix size mtime text
| fileAt_below listing dir prefix item sub fullPath name linePrefix
               size mtime text :
    In (item, sub) listing ->
    isQuickIgnored item = false ->
    isPatternIgnored (Path.relative rootPath (Path.join dir item)) = false ->
    fileAt rootPath sub (Path.join dir item) (prefix ++ "  ")
           fullPath name linePrefix size mtime text ->
    fileAt rootPath (Directory (Some listing)) dir prefix
           fullPath name linePrefix size mtime text.

(** The record [collectFiles] builds for a file. *)
Definition recordOf (rootPath fullPath : string) (size : N) (mtime : Z)
           (text : string) : FileData :=
  {| path := Path.relative rootPath fullPath;
     content := text;
     language := getLanguageId fullPath;
     size := size;
     lastModified := mtime |}.

(** No directory lists a name twice. *)
Fixpoint distinctNames (n : node) : Prop :=
  match n with
  | Directory (Some items) =>
      NoDup (map fst items) /\
      fold_right (fun e rest => distinctNames (snd e) /\ rest) True items
  | _ => True
  end.

(** [f] is the record of a file below the directory [n] at [dir] that no
    filter ignores, that is not binary and not over the size threshold. *)
Definition recorded (rootPath : string) (n : node) (dir : string)
           (f : FileData) : Prop :=
  exists prefix fullPath name linePrefix fileSize mtime text,
    fileAt rootPath n dir prefix fullPath name linePrefix fileSize mtime
           (Some text) /\
    f = recordOf rootPath fullPath fileSize mtime text /\
    isBinaryPath fullPath = false /\
    (fileSize <= maxFileSizeBytes)%N.

(** The expression that matches the text [s] and nothing else. *)
Fixpoint literal (s : string) : RegExp.regex :=
  match s with
  | EmptyString => []
  | String c s' => RegExp.Once (RegExp.Lit c) :: literal s'
  end.



(** The patterns that name a directory without a dot in its name. *)
Definition plainDirectories : list string :=
  [ "node_modules"; "dist"; "build"; "coverage"; "out"; "bin"; "vendor";
    "public/assets" ].


(** [stat] fails on no entry of the tree. *)
Fixpoint statable (n : node) : bool :=
  match n with
  | Directory (Some items) => forallb (fun e => statable (snd e)) items
  | Unreachable => false
  | _ => true
  end.

(** The records of the files below the directory [n] at [dir] that pass the
    filters and can be read, directory by directory in listing order. *)
Fixpoint selectedFiles (rootPath : string) (n : node) (dir : string) {struct n}
  : list FileData :=
  match n with
  | Directory (Some items) =>
      flat_map
        (fun e =>
           let fullPath := Path.join dir (fst e) in
           if isQuickIgnored (fst e)
              || isPatternIgnored (Path.relative rootPath fullPath)
           then []
           else if isDirectoryNode (snd e)
           then selectedFiles rootPath (snd e) fullPath
           else
             match snd e with
             | File fileSize mtime (Some text) =>
                 if (fileSize <=? maxFileSizeBytes)%N
                    && negb (isBinaryPath fullPath)
                 then [recordOf rootPath fullPath fileSize mtime text]
                 else []
             | _ => []
             end)
        items
  | _ => []
  end.

(** The files below [n] that are not below a quick-ignored name. *)
Fixpoint countable (n : node) : nat :=
  match n with
  | Directory (Some items) =>
      list_sum
        (map (fun e =>
                if isQuickIgnored (fst e) then 0
                else if isDirectoryNode (snd e) then countable (snd e)
                else 1)
             items)
  | _ => 0
  end.

(** A line of the structure listing written at [prefix] or deeper: the
    prefix, some two-space steps, a marker and a name. *)
Definition structureLine (prefix line : string) : Prop :=
  exists depth marker name,
    (marker = dirMarker \/ marker = fileMarker) /\
    line = prefix ++ Str.repeat "  " depth ++ marker ++ name.

(** The texts of a list, one after the other. *)
Definition flatten (parts : list string) : string :=
  fold_right append EmptyString parts.

Definition textHeader (structure : string) : string :=
  "PROJECT EXPORT" ++ Str.nl ++ Str.nl ++ "PROJECT STRUCTURE:" ++ Str.nl
  ++ Str.nl ++ structure ++ Str.nl ++ Str.nl ++ "FILES:" ++ Str.nl ++ Str.nl.

Definition textSection (file : FileData) : string :=
  "=== " ++ path file ++ " ===" ++ Str.nl ++ Str.nl ++ content file ++ Str.nl
  ++ Str.nl ++ Str.repeat "=" 40 ++ Str.nl ++ Str.nl.

Definition markdownHeader (structure : string) : string :=
  "# Project Export" ++ Str.nl ++ Str.nl ++ "## Project Structure" ++ Str.nl
  ++ Str.nl ++ fence ++ Str.nl ++ structure ++ Str.nl ++ fence ++ Str.nl
  ++ Str.nl ++ "## Files" ++ Str.nl ++ Str.nl.

Definition markdownSection (file : FileData) : string :=
  "### " ++ path file ++ Str.nl ++ "Last modified: "
  ++ Host.toISOString (lastModified file) ++ Str.nl ++ "Size: "
  ++ Host.kilobytesToFixed2 (size file) ++ " KB" ++ Str.nl ++ Str.nl ++ fence
  ++ language file ++ Str.nl ++ content file ++ Str.nl ++ fence ++ Str.nl
  ++ Str.nl.

(** The one record that renders in Text format as [f] followed by [g]: the
    text of [f], the closing line of its section, the banner of [g] and the
    text of [g]. *)
Definition mergedRecord (f g : FileData) : FileData :=
  {| path := path f;
     content := content f ++ Str.nl ++ Str.nl ++ Str.repeat "=" 40 ++ Str.nl
                ++ Str.nl ++ "=== " ++ path g ++ " ===" ++ Str.nl ++ Str.nl
                ++ content g;
     language := language f;
     size := size f;
     lastModified := lastModified f |}.

(** The progress reports of a trace, in order. *)
Definition reports (tr : list effect) : list (string * number) :=
  flat_map (fun e => match e with
                     | ProgressReport message increment => [(message, increment)]
                     | _ => []
                     end) tr.

(** The scanning reports for [paths] when [first] entries were scanned
    before them and the counting pass left [total]. *)
Fixpoint numbered (total first : nat) (paths : list string)
  : list (string * number) :=
  match paths with
  | [] => []
  | relativePath :: rest =>
      ("Scanning: " ++ relativePath ++ " (" ++ Str.ofNat (S first) ++ "/"
       ++ Str.ofNat total ++ ")",
       divide 100 (N.of_nat total))
      :: numbered total (S first) rest
  end.

(** From [st] to [st'] the scan reported some entries, numbered on from
    [scannedFiles st], and counted them in [scannedFiles]. *)
Definition numbers (st st' : scan) : Prop :=
  totalFiles st' = totalFiles st /\
  exists more paths,
    trace st' = (trace st ++ more)%list /\
    reports more = numbered (totalFiles st) (scannedFiles st) paths /\
    scannedFiles st' = scannedFiles st + length paths.

(* ================================================================== *)
(** ** Sample data *)

Module Samples.

Definition source (size : N) (contents : string) : node :=
  File size 1700000000000 (Some contents).

(** A root with [src/a.ts] (10 bytes), [node_modules/x.js] (5 bytes) and
    [image.png] (2 bytes). *)
Definition project : node :=
  Directory (Some
    [ ("src", Directory (Some [("a.ts", source 10 "let a = 1;")]));
      ("node_modules", Directory (Some [("x.js", source 5 "x = 1")]));
      ("image.png", source 2 "PN") ]).

Definition a_ts : FileData :=
  {| path := "src/a.ts"; content := "let a = 1;"; language := "typescript";
     size := 10; lastModified := 1700000000000 |}.

(** A collation for the examples: the order of the character codes. *)
Definition byCode (a b : string) : Z :=
  match String.compare a b with
  | Lt => (-1)%Z
  | Eq => 0%Z
  | Gt => 1%Z
  end.

(** An export of [project] that is cancelled at tick [t]. *)
Definition cancelledAt (t : nat) : Workbench :=
  {| workspaceFolders := Some ["/work"];
     pickedFormat := Some Markdown;
     savePath := Some "/work/project-export.md";
     root := project;
     cancellation := Some t;
     clock := 1700000000000;
     elapsed := "0.1";
     writeFails := false |}.

(** A root that holds one empty directory and no file. *)
Definition emptySrc : node := Directory (Some [("src", Directory (Some []))]).

(** A root with two sources and a directory that cannot be listed. *)
Definition locked : node :=
  Directory (Some
    [ ("a.ts", source 10 "let a = 1;");
      ("secret", Directory None);
      ("b.ts", source 10 "let b = 2;") ]).

(** A root with a dangling link before a source. *)
Definition dangling : node :=
  Directory (Some
    [ ("link", Unreachable);
      ("b.ts", source 10 "let b = 2;") ]).

Definition exportOf (tree : node) : Workbench :=
  {| workspaceFolders := Some ["/work"];
     pickedFormat := Some Text;
     savePath := Some "/work/project-export.txt";
     root := tree;
     cancellation := None;
     clock := 1700000000000;
     elapsed := "0.1";
     writeFails := false |}.

(** A listing that is in no particular order. *)
Definition unordered : list (string * node) :=
  [ ("b.ts", source 10 "let b = 2;");
    ("src", Directory (Some [("x.ts", source 10 "let x = 0;")]));
    ("a.ts", source 10 "let a = 1;");
    ("lib", Directory (Some [])) ].

Definition unorderedLines : list string :=
  [ dirMarker ++ "lib";
    dirMarker ++ "src";
    "  " ++ fileMarker ++ "x.ts";
    fileMarker ++ "a.ts";
    fileMarker ++ "b.ts" ].

(** A file of exactly 1 MiB next to a file of one byte more. *)
Definition sized : node :=
  Directory (Some
    [ ("src", Directory (Some
         [ ("exact.ts", File 1048576 1700000000000 (Some "let e = 0;"));
           ("over.ts", File 1048577 1700000000000 (Some "let o = 0;")) ])) ]).

Definition f_go : TextEditor :=
  {| document := {| fileName := "/p/f.go"; languageId := "go";
                    text := "axb" |};
     selection := {| selStart := 1; selEnd := 2 |} |}.

End Samples.

(* ================================================================== *)
(** * Verification *)


(** ** Strings and paths *)

Module StrFacts.

Lemma append_assoc (a b c : string) : (a ++ b) ++ c = a ++ (b ++ c).
Proof. induction a as [|x a IH]; simpl; [reflexivity | now rewrite IH]. Qed.

Lemma append_nil_r (a : string) : a ++ EmptyString = a.
Proof. induction a as [|x a IH]; simpl; [reflexivity | now rewrite IH]. Qed.

Lemma toLowerCase_append (a b : string) :
  Str.toLowerCase (a ++ b) = Str.toLowerCase a ++ Str.toLowerCase b.
Proof. induction a as [|x a IH]; simpl; [reflexivity | now rewrite IH]. Qed.

Lemma endsWith_refl (s : string) : Str.endsWith s s = true.
Proof. destruct s; simpl; rewrite ?String.eqb_refl, ?Ascii.eqb_refl; reflexivity. Qed.

Lemma endsWith_append (before s suffix : string) :
  Str.endsWith s suffix = true -> Str.endsWith (before ++ s) suffix = true.
Proof.
  intros H. induction before as [|x before IH]; simpl; [exact H|].
  rewrite IH. apply orb_true_r.
Qed.

Lemma endsWith_split (s suffix : string) :
  Str.endsWith s suffix = true -> exists before, s = before ++ suffix.
Proof.
  induction s as [|x s IH]; simpl; intros H.
  - rewrite orb_false_r in H. destruct suffix; [|discriminate].
    now exists EmptyString.
  - apply orb_true_iff in H as [H | H].
    + exists EmptyString. simpl. destruct suffix as [|y suffix]; [discriminate|].
      apply andb_true_iff in H as [Hx Hs].
      apply Ascii.eqb_eq in Hx. apply String.eqb_eq in Hs. now subst.
    + destruct (IH H) as [before ->]. now exists (String x before).
Qed.

Lemma includes_In (l : list string) (x : string) :
  Str.includes l x = true <-> In x l.
Proof.
  unfold Str.includes. rewrite existsb_exists. split.
  - intros (y & Hy & E). apply String.eqb_eq in E. now subst.
  - intros H. exists x. split; [exact H | apply String.eqb_refl].
Qed.

End StrFacts.

Module PathFacts.
Import StrFacts.

Lemma stripPrefix_append (p s : string) : Path.stripPrefix p (p ++ s) = Some s.
Proof.
  induction p as [|c p IH]; simpl; [reflexivity|].
  now rewrite Ascii.eqb_refl.
Qed.

Lemma relative_join (rootPath rel : string) :
  Path.relative rootPath (Path.join rootPath rel) = rel.
Proof.
  unfold Path.relative, Path.join.
  replace (rootPath ++ String Str.slash rel)
    with ((rootPath ++ String Str.slash EmptyString) ++ rel)
    by (now rewrite append_assoc).
  now rewrite stripPrefix_append.
Qed.

Lemma join_join (rootPath rel item : string) :
  Path.join (Path.join rootPath rel) item = Path.join rootPath (Path.join rel item).
Proof. unfold Path.join. now rewrite append_assoc. Qed.

Lemma inside_step (rootPath dir item : string) :
  inside rootPath dir ->
  let fullPath := Path.join dir item in
  let relativePath := Path.relative rootPath fullPath in
  fullPath = Path.join rootPath relativePath /\
  inside rootPath fullPath /\
  entryOf item relativePath.
Proof.
  intros [-> | [rel ->]]; cbv zeta.
  - rewrite relative_join. repeat split.
    + right. now exists item.
    + now left.
  - rewrite join_join, relative_join. repeat split.
    + right. now exists (Path.join rel item).
    + right. now exists rel.
Qed.

Lemma lastComponent_plain (item : string) :
  Str.contains Str.slash item = false -> Path.lastComponent item = item.
Proof. destruct item as [|c item]; simpl; [reflexivity|]. now intros ->. Qed.

Lemma contains_append (c : ascii) (a b : string) :
  Str.contains c (a ++ b) = Str.contains c a || Str.contains c b.
Proof.
  induction a as [|x a IH]; simpl; [reflexivity|].
  now rewrite IH, orb_assoc.
Qed.

Lemma lastComponent_join (rel item : string) :
  Str.contains Str.slash item = false ->
  Path.lastComponent (Path.join rel item) = item.
Proof.
  intros H. unfold Path.join. induction rel as [|c rel IH].
  - simpl. now apply lastComponent_plain.
  - change (String c rel ++ String Str.slash item)
      with (String c (rel ++ String Str.slash item)).
    unfold Path.lastComponent; fold Path.lastComponent.
    replace (Str.contains Str.slash (String c (rel ++ String Str.slash item)))
      with true; [exact IH|].
    simpl. rewrite contains_append. simpl.
    now rewrite orb_true_r, orb_true_r.
Qed.

Lemma lastComponent_entry (item relativePath : string) :
  Str.contains Str.slash item = false ->
  entryOf item relativePath ->
  Path.lastComponent relativePath = item.
Proof.
  intros H [-> | [rel ->]].
  - now apply lastComponent_plain.
  - now apply lastComponent_join.
Qed.

Lemma fromLastDot_suffix (s e : string) :
  Path.fromLastDot s = Some e -> exists before, s = before ++ e.
Proof.
  revert e. induction s as [|c s IH]; simpl; intros e H; [discriminate|].
  destruct (Path.fromLastDot s) as [e'|].
  - injection H as <-. destruct (IH e' eq_refl) as [before ->].
    now exists (String c before).
  - destruct (Ascii.eqb c Str.dot); [|discriminate].
    injection H as <-. now exists EmptyString.
Qed.

Lemma extname_suffix (p : string) :
  Path.extname p = EmptyString \/
  exists before, Path.lastComponent p = before ++ Path.extname p.
Proof.
  unfold Path.extname.
  destruct (Path.fromLastDot (Path.lastComponent p)) as [e|] eqn:E;
    [|now left].
  destruct (_ =? _)%nat; [now left|].
  destruct (String.eqb _ _); [now left|].
  right. now apply fromLastDot_suffix.
Qed.

Lemma entry_suffix (item relativePath : string) :
  entryOf item relativePath -> exists before, relativePath = before ++ item.
Proof.
  intros [-> | [rel ->]].
  - now exists EmptyString.
  - exists (rel ++ String Str.slash EmptyString). unfold Path.join.
    now rewrite append_assoc.
Qed.

(** A path whose extension is in the binary set is a binary path. *)
Lemma binary_extension (rootPath item relativePath : string) :
  Str.contains Str.slash item = false ->
  entryOf item relativePath ->
  In (Str.toLowerCase (Path.extname relativePath)) binaryExtensions ->
  isBinaryPath (Path.join rootPath relativePath) = true.
Proof.
  intros Hplain Hentry Hin.
  unfold isBinaryPath. apply existsb_exists.
  exists (Str.toLowerCase (Path.extname relativePath)). split; [exact Hin|].
  destruct (extname_suffix relativePath) as [E | [before E]].
  - rewrite E in Hin. exfalso. revert Hin. unfold binaryExtensions. simpl.
    intuition discriminate.
  - rewrite (lastComponent_entry _ _ Hplain Hentry) in E.
    destruct (entry_suffix _ _ Hentry) as [before' E'].
    unfold Path.join.
    rewrite E' at 1. rewrite E at 1.
    replace (rootPath ++ String Str.slash (before' ++ before ++ Path.extname relativePath))
      with ((rootPath ++ String Str.slash (before' ++ before)) ++ Path.extname relativePath).
    + rewrite toLowerCase_append. apply endsWith_append, endsWith_refl.
    + rewrite append_assoc. simpl. now rewrite append_assoc.
Qed.

End PathFacts.

(** ** The regular-expression matcher computes the denotation *)

Module RegExpFacts.
Import RegExp.

Lemma matchHere_star (a : atom) (r : regex) (s : string) :
  matchHere (Star a :: r) s =
  match s with
  | String c s' => (atomMatches a c && matchHere (Star a :: r) s') || matchHere r s
  | EmptyString => matchHere r s
  end.
Proof. destruct s; reflexivity. Qed.

Lemma matchHere_sound (r : regex) :
  forall s, matchHere r s = true ->
            exists m rest, s = m ++ rest /\ matches r m.
Proof.
  induction r as [|t r IH]; intros s H.
  - exists EmptyString, s. split; [reflexivity | constructor].
  - destruct t as [a | a].
    + destruct s as [|c s']; simpl in H; [discriminate|].
      apply andb_true_iff in H as [Hc Hr].
      destruct (IH _ Hr) as (m & rest & -> & Hm).
      exists (String c m), rest. split; [reflexivity | now constructor].
    + induction s as [|c s' IHs].
      * rewrite matchHere_star in H.
        destruct (IH _ H) as (m & rest & E & Hm).
        exists m, rest. split; [exact E | now apply matches_star_done].
      * rewrite matchHere_star in H.
        apply orb_true_iff in H as [H | H].
        -- apply andb_true_iff in H as [Hc Hs].
           destruct (IHs Hs) as (m & rest & -> & Hm).
           exists (String c m), rest.
           split; [reflexivity | now apply matches_star_more].
        -- destruct (IH _ H) as (m & rest & E & Hm).
           exists m, rest. split; [exact E | now apply matches_star_done].
Qed.

Lemma matchHere_complete (r : regex) (m : string) :
  matches r m -> forall rest, matchHere r (m ++ rest) = true.
Proof.
  induction 1 as [ | a c r s Hc _ IH | a r s _ IH | a c r s Hc _ IH ];
    intros rest.
  - reflexivity.
  - simpl. now rewrite Hc, IH.
  - rewrite matchHere_star. destruct (s ++ rest) eqn:E.
    + rewrite <- E. apply IH.
    + rewrite <- E, IH. apply orb_true_r.
  - simpl append. rewrite matchHere_star, Hc, IH. reflexivity.
Qed.

Lemma matchHere_iff (r : regex) (s : string) :
  matchHere r s = true <-> exists m rest, s = m ++ rest /\ matches r m.
Proof.
  split.
  - apply matchHere_sound.
  - intros (m & rest & -> & Hm). now apply matchHere_complete.
Qed.

Lemma test_iff (r : regex) (s : string) :
  test r s = true <->
  exists before matched after,
    s = before ++ matched ++ after /\ matches r matched.
Proof.
  split.
  - induction s as [|c s IH]; simpl; intros H.
    + rewrite orb_false_r in H.
      apply matchHere_sound in H as (m & rest & E & Hm).
      exists EmptyString, m, rest. now split.
    + apply orb_true_iff in H as [H | H].
      * apply matchHere_sound in H as (m & rest & E & Hm).
        exists EmptyString, m, rest. now split.
      * destruct (IH H) as (b & m & a & -> & Hm).
        exists (String c b), m, a. now split.
  - intros (b & m & a & -> & Hm).
    induction b as [|c b IH]; simpl.
    + destruct (m ++ a) eqn:E; simpl;
        rewrite <- E, (matchHere_complete _ _ Hm); reflexivity.
    + rewrite IH. apply orb_true_r.
Qed.

End RegExpFacts.

Lemma defaultIgnore_parses :
  forall pattern, In pattern defaultIgnore ->
                  exists regex, RegExp.parse (replaceDoubleStar pattern) = Some regex.
Proof.
  intros pattern H. unfold defaultIgnore in H. simpl in H.
  repeat (destruct H as [<- | H]; [eexists; vm_compute; reflexivity|]).
  contradiction.
Qed.

(** C2 (as amended): a path is ignored by a configured pattern exactly when
    some part of the path belongs to the regular expression that results from
    the pattern once every double star is replaced by dot-star and the rest
    is read as regular-expression source: a dot stands for any one character
    but a line terminator, a star repeats the atom before it any number of
    times, and every other character stands for itself. *)
Theorem C2_pattern_is_regexp_search :
  forall pattern relativePath,
    In pattern defaultIgnore ->
    exists regex,
      RegExp.parse (replaceDoubleStar pattern) = Some regex /\
      (patternTest pattern relativePath = true <->
       exists before matched after,
         relativePath = before ++ matched ++ after /\
         RegExp.matches regex matched).
Proof.
  intros pattern relativePath Hin.
  destruct (defaultIgnore_parses pattern Hin) as [regex Hparse].
  exists regex. split; [exact Hparse|].
  unfold patternTest. rewrite Hparse. apply RegExpFacts.test_iff.
Qed.

Lemma C2_pattern_is_regexp_search_witness :
  exists regex,
    RegExp.parse (replaceDoubleStar "**/*.lock") = Some regex /\
    (patternTest "**/*.lock" "src/clock.ts" = true <->
     exists before matched after,
       "src/clock.ts" = before ++ matched ++ after /\
       RegExp.matches regex matched).
Proof.
  apply (C2_pattern_is_regexp_search "**/*.lock" "src/clock.ts").
  unfold defaultIgnore. simpl. tauto.
Defined.

(** C2 (as stated) fails: [src/clock.ts] holds neither the text [/*.lock]
    nor anything the literal reading of the pattern accepts, and the pattern
    ignores it all the same, since the dot matches the [c] before [lock]. *)
Lemma C2_literal_reading_counterexample :
  In "**/*.lock" defaultIgnore /\
  patternTest "**/*.lock" "src/clock.ts" = true /\
  SpecPattern.matchAll (SpecPattern.tokens "**/*.lock") "src/clock.ts" = false /\
  SpecPattern.matchWithin (SpecPattern.tokens "**/*.lock") "src/clock.ts" = false.
Proof.
  split; [unfold defaultIgnore; simpl; tauto|].
  repeat split; vm_compute; reflexivity.
Qed.

(** ** The scanning pass only adds, and adds only accepted records *)

Section WalkerFacts.

Variable rootPath : string.
Variable token : CancellationToken.

Lemma extends_refl C st : extends rootPath C st st.
Proof.
  repeat split; try (exists []; rewrite app_nil_r; repeat split);
    auto.
Qed.

Lemma extends_trans C st1 st2 st3 :
  extends rootPath C st1 st2 -> extends rootPath C st2 st3 ->
  extends rootPath C st1 st3.
Proof.
  intros ((f1 & Ef1 & Hs1 & Hf1) & (t1 & Et1 & Ht1) & Hk1 & Hn1)
         ((f2 & Ef2 & Hs2 & Hf2) & (t2 & Et2 & Ht2) & Hk2 & Hn2).
  repeat split.
  - exists (f1 ++ f2)%list. rewrite Ef2, Ef1, app_assoc. split; [reflexivity|].
    split; [apply Forall_app; auto|].
    intros HC. apply Forall_app. auto.
  - exists (t1 ++ t2)%list. rewrite Et2, Et1, app_assoc. split; [reflexivity|].
    apply Forall_app. split; [exact Ht1|]. now rewrite <- Hn1.
  - lia.
  - congruence.
Qed.

Lemma extends_weaken (C C' : Prop) st st' :
  (C' -> C) -> extends rootPath C st st' -> extends rootPath C' st st'.
Proof.
  intros HC ((f & Ef & Hs & Hf) & Ht & Hk & Hn). repeat split; auto.
  exists f. repeat split; auto.
Qed.

Lemma extends_tick C st : extends rootPath C st (tick st).
Proof.
  repeat split; simpl; try (exists []; rewrite app_nil_r; repeat split);
    auto.
Qed.

Lemma extends_emit C e st :
  scanEffect (totalFiles st) e -> extends rootPath C st (emit e st).
Proof.
  intros He. repeat split; simpl; auto.
  - exists []. rewrite app_nil_r. auto.
  - exists [e]. split; [reflexivity | auto].
Qed.

Lemma extends_report C relativePath st :
  extends rootPath C st (reportScanning relativePath (incrScannedFiles (tick st))).
Proof.
  repeat split; simpl; auto.
  - exists []. rewrite app_nil_r. auto.
  - eexists. split; [reflexivity|]. repeat constructor.
    exists relativePath, (S (scannedFiles st)). reflexivity.
Qed.

Lemma extends_push (C : Prop) f st :
  (size f <= maxFileSizeBytes)%N ->
  (C -> accepted rootPath f) -> extends rootPath C st (pushFile f st).
Proof.
  intros Hs Hf. repeat split; simpl; auto.
  - exists [f]. repeat split; auto.
  - exists []. rewrite app_nil_r. auto.
Qed.

Lemma scanFile_extends (C : Prop) dir item child s st :
  isQuickIgnored item = false ->
  isPatternIgnored (Path.relative rootPath (Path.join dir item)) = false ->
  (C -> Str.contains Str.slash item = false /\ inside rootPath dir) ->
  extends rootPath C st
    (scanFile child (Path.join dir item)
              (Path.relative rootPath (Path.join dir item)) s st).
Proof.
  intros Hquick Hpattern HC. unfold scanFile.
  destruct (N.ltb_spec maxFileSizeBytes (statSize s)) as [Hlarge | Hsize].
  { now apply extends_emit. }
  destruct (isBinaryPath (Path.join dir item)) eqn:Hbinary; simpl.
  { apply extends_refl. }
  destruct (readFile child) as [text|].
  - eapply extends_trans; [apply extends_tick|].
    apply extends_push; [exact Hsize|].
    intros HC'. destruct (HC HC') as [Hplain Hinside].
    destruct (PathFacts.inside_step rootPath dir item Hinside)
      as (Hfull & _ & Hentry).
    unfold accepted; simpl. repeat split.
    + unfold Path.basename.
      now rewrite (PathFacts.lastComponent_entry _ _ Hplain Hentry).
    + exact Hpattern.
    + now rewrite <- Hfull.
    + intros Hin.
      apply (PathFacts.binary_extension rootPath _ _ Hplain Hentry) in Hin.
      rewrite <- Hfull in Hin. congruence.
    + exact Hsize.
  - eapply extends_trans; [apply extends_tick|]. now apply extends_emit.
Qed.

Lemma traverseLoop_extends recurse dir items :
  Forall (fun e => forall d st,
              extends rootPath (wellNamed (snd e) = true /\ inside rootPath d)
                      st (recurse (snd e) d st)) items ->
  forall st,
    extends rootPath (plainNames items = true /\ inside rootPath dir)
            st (traverseLoop rootPath token recurse dir items st).
Proof.
  induction 1 as [|[item child] rest Hchild _ IH]; intros st; simpl.
  { apply extends_refl. }
  assert (Hrest : forall st',
             extends rootPath
               (plainNames ((item, child) :: rest) = true /\ inside rootPath dir)
               st' (traverseLoop rootPath token recurse dir rest st')).
  { intros st'. eapply extends_weaken; [|apply IH].
    simpl. intros [H Hi]. apply andb_true_iff in H as [_ H]. now split. }
  destruct (isCancellationRequested token (ticks st)); [apply extends_refl|].
  destruct (isQuickIgnored item) eqn:Hquick; [apply Hrest|].
  destruct (isPatternIgnored _) eqn:Hpattern; [apply Hrest|].
  destruct (stat child) as [s|] eqn:Hstat.
  - assert (Hreport := extends_report
              (plainNames ((item, child) :: rest) = true /\ inside rootPath dir)
              (Path.relative rootPath (Path.join dir item)) st).
    destruct (isDirectory s).
    + eapply extends_trans; [exact Hreport|].
      eapply extends_trans; [|apply Hrest].
      eapply extends_weaken; [|apply Hchild].
      simpl. intros [H Hi]. apply andb_true_iff in H as [H _].
      apply andb_true_iff in H as [_ H]. split; [exact H|].
      now apply PathFacts.inside_step.
    + eapply extends_trans; [exact Hreport|].
      eapply extends_trans; [|apply Hrest].
      apply scanFile_extends; auto.
      simpl. intros [H Hi]. apply andb_true_iff in H as [H _].
      apply andb_true_iff in H as [H _]. apply negb_true_iff in H. now split.
  - eapply extends_trans; [apply extends_tick|]. now apply extends_emit.
Qed.

Lemma traverse_extends (n : node) :
  forall dir st,
    extends rootPath (wellNamed n = true /\ inside rootPath dir)
            st (traverse rootPath token n dir st).
Proof.
  induction n as [size mtime text | | items IH | ] using node_induction;
    intros dir st; simpl;
    try (eapply extends_trans; [apply extends_tick|]; now apply extends_emit).
  eapply extends_trans; [apply extends_tick|].
  apply (traverseLoop_extends (traverse rootPath token) dir items IH).
Qed.

(** The counting pass touches neither the records nor the progress sink. *)

Lemma counted_refl st : counted st st.
Proof.
  repeat split; auto. exists []. rewrite app_nil_r. auto.
Qed.

Lemma counted_trans st1 st2 st3 :
  counted st1 st2 -> counted st2 st3 -> counted st1 st3.
Proof.
  intros (F1 & K1 & t1 & E1 & H1) (F2 & K2 & t2 & E2 & H2).
  repeat split; [congruence | lia |].
  exists (t1 ++ t2)%list. rewrite E2, E1, app_assoc. split; [reflexivity|].
  apply Forall_app. auto.
Qed.

Lemma counted_tick st : counted st (tick st).
Proof.
  repeat split; simpl; auto. exists []. rewrite app_nil_r. auto.
Qed.

Lemma counted_warn m c st : counted st (emit (ConsoleWarn m c) st).
Proof.
  repeat split; simpl; auto. exists [ConsoleWarn m c].
  split; [reflexivity|]. repeat constructor. eauto.
Qed.

Lemma counted_incr st : counted st (incrTotalFiles st).
Proof.
  repeat split; simpl; auto. exists []. rewrite app_nil_r. auto.
Qed.

Lemma countLoop_counted recurse dir items :
  Forall (fun e => forall d st, counted st (recurse (snd e) d st)) items ->
  forall st, counted st (countLoop token recurse dir items st).
Proof.
  induction 1 as [|[item child] rest Hchild _ IH]; intros st; simpl.
  { apply counted_refl. }
  destruct (isCancellationRequested token (ticks st)); [apply counted_refl|].
  destruct (isQuickIgnored item); [apply IH|].
  destruct (stat child) as [s|].
  - destruct (isDirectory s).
    + eapply counted_trans; [apply counted_tick|].
      eapply counted_trans; [apply Hchild | apply IH].
    + eapply counted_trans; [apply counted_tick|].
      eapply counted_trans; [apply counted_incr | apply IH].
  - eapply counted_trans; [apply counted_tick | apply counted_warn].
Qed.

Lemma countFiles_counted (n : node) :
  forall dir st, counted st (countFiles token n dir st).
Proof.
  induction n as [size mtime text | | items IH | ] using node_induction;
    intros dir st; simpl;
    try (eapply counted_trans; [apply counted_tick | apply counted_warn]).
  eapply counted_trans; [apply counted_tick|].
  apply (countLoop_counted (countFiles token) dir items IH).
Qed.

(** C1: every record that [collectFiles] returns is for a file whose
    basename is not quick-ignored, whose root-relative path no configured
    pattern ignores, whose extension is not a binary one (the path is not a
    binary path), and whose size is at most 1 MiB. *)
Theorem C1_collected_files_pass_every_filter :
  forall (root : node) (now : nat) (tr : list effect) (f : FileData),
    wellNamed root = true ->
    In f (collectFiles rootPath token root now tr) ->
    isQuickIgnored (Path.basename (path f)) = false /\
    isPatternIgnored (path f) = false /\
    isBinaryPath (Path.join rootPath (path f)) = false /\
    ~ In (Str.toLowerCase (Path.extname (path f))) binaryExtensions /\
    (size f <= 1024 * 1024)%N.
Proof.
  intros root now tr f Hnames Hin.
  unfold collectFiles, collectFilesRun in Hin.
  set (st0 := countFiles token root rootPath (initialScan now tr)) in *.
  destruct (countFiles_counted root rootPath (initialScan now tr))
    as (Hfiles & _).
  destruct (traverse_extends root rootPath st0) as ((more & E & _ & Hmore) & _).
  fold st0 in Hfiles. rewrite E, Hfiles in Hin. simpl in Hin.
  assert (Hall : Forall (accepted rootPath) more).
  { apply Hmore. split; [exact Hnames | now left]. }
  rewrite Forall_forall in Hall. exact (Hall f Hin).
Qed.

End WalkerFacts.

Lemma C1_collected_files_pass_every_filter_witness :
  isQuickIgnored (Path.basename (path Samples.a_ts)) = false /\
  isPatternIgnored (path Samples.a_ts) = false /\
  isBinaryPath (Path.join "/work" (path Samples.a_ts)) = false /\
  ~ In (Str.toLowerCase (Path.extname (path Samples.a_ts))) binaryExtensions /\
  (size Samples.a_ts <= 1024 * 1024)%N.
Proof.
  apply (C1_collected_files_pass_every_filter
           "/work" None Samples.project 0 [] Samples.a_ts).
  - reflexivity.
  - vm_compute. left. reflexivity.
Defined.

(** ** Cancellation *)

Section CancellationFacts.

Variable rootPath : string.
Variable token : CancellationToken.

Lemma cancellation_stays (now later : nat) :
  isCancellationRequested token now = true -> now <= later ->
  isCancellationRequested token later = true.
Proof.
  unfold isCancellationRequested. destruct token as [t|]; [|discriminate].
  intros H Hle. apply Nat.leb_le in H. apply Nat.leb_le. lia.
Qed.

Lemma traverseLoop_cancelled recurse dir items st :
  isCancellationRequested token (ticks st) = true ->
  traverseLoop rootPath token recurse dir items st = st.
Proof. intros H. destruct items as [|[item child] rest]; simpl; now rewrite ?H. Qed.

Lemma countLoop_cancelled recurse dir items st :
  isCancellationRequested token (ticks st) = true ->
  countLoop token recurse dir items st = st.
Proof. intros H. destruct items as [|[item child] rest]; simpl; now rewrite ?H. Qed.

(** Called with cancellation already requested, [traverse] reads the
    directory and returns at the first poll: the records stay as they are. *)
Lemma traverse_cancelled n dir st :
  isCancellationRequested token (ticks st) = true ->
  files (traverse rootPath token n dir st) = files st /\
  isCancellationRequested token (ticks (traverse rootPath token n dir st)) = true.
Proof.
  intros H.
  assert (H' : isCancellationRequested token (ticks (tick st)) = true).
  { apply (cancellation_stays (ticks st)); [exact H | simpl; lia]. }
  destruct n as [size mtime text | [items|] | ]; simpl; auto.
  rewrite traverseLoop_cancelled; auto.
Qed.

Lemma keepsFiles_refl st : keepsFiles st st.
Proof. exists []. now rewrite app_nil_r. Qed.

Lemma keepsFiles_trans st1 st2 st3 :
  keepsFiles st1 st2 -> keepsFiles st2 st3 -> keepsFiles st1 st3.
Proof.
  intros [m1 E1] [m2 E2]. exists (m1 ++ m2)%list.
  now rewrite E2, E1, app_assoc.
Qed.

Lemma extends_keepsFiles root' C st st' :
  extends root' C st st' -> keepsFiles st st'.
Proof. intros ((more & E & _) & _). now exists more. Qed.

Lemma traverseLoop_cutShort recurse1 recurse2 dir items :
  Forall (fun e => forall d st,
              cutShort token (recurse1 (snd e) d st) (recurse2 (snd e) d st))
         items ->
  Forall (fun e => forall d st,
              extends rootPath (wellNamed (snd e) = true /\ inside rootPath d)
                      st (recurse2 (snd e) d st)) items ->
  forall st,
    cutShort token
      (traverseLoop rootPath token recurse1 dir items st)
      (traverseLoop rootPath None recurse2 dir items st).
Proof.
  intros Hcut. induction Hcut as [|[item child] rest Hchild _ IH];
    intros Hext st; [now left|].
  inversion Hext as [|? ? Hext1 Hext2]; subst.
  assert (Hmono := traverseLoop_extends rootPath None recurse2 dir).
  simpl.
  destruct (isCancellationRequested token (ticks st)) eqn:Hpoll.
  { right. split; [exact Hpoll|].
    apply extends_keepsFiles with (1 := Hmono ((item, child) :: rest) Hext st). }
  destruct (isQuickIgnored item); [now apply IH|].
  destruct (isPatternIgnored _); [now apply IH|].
  destruct (stat child) as [s|]; [|now left].
  destruct (isDirectory s); [|now apply IH].
  set (st' := reportScanning _ _).
  destruct (Hchild (Path.join dir item) st') as [E | [Hc Hk]].
  - simpl in E. rewrite E. now apply IH.
  - right. simpl in Hc, Hk. rewrite (traverseLoop_cancelled _ _ _ _ Hc).
    split; [exact Hc|].
    eapply keepsFiles_trans; [exact Hk|].
    apply extends_keepsFiles with (1 := Hmono rest Hext2 _).
Qed.

Lemma traverse_cutShort (n : node) :
  forall dir st,
    cutShort token (traverse rootPath token n dir st)
                   (traverse rootPath None n dir st).
Proof.
  induction n as [size mtime text | | items IH | ] using node_induction;
    intros dir st; simpl; try (now left).
  apply traverseLoop_cutShort; [exact IH|].
  apply Forall_forall. intros e _ d st'. apply traverse_extends.
Qed.

(** The counting pass under a token: the same as the pass nobody cancels,
    or stopped on a requested cancellation. *)
Lemma countLoop_cutShort recurse1 recurse2 dir items :
  Forall (fun e => forall d st,
              recurse1 (snd e) d st = recurse2 (snd e) d st \/
              isCancellationRequested token (ticks (recurse1 (snd e) d st)) = true)
         items ->
  forall st,
    countLoop token recurse1 dir items st = countLoop None recurse2 dir items st \/
    isCancellationRequested token
      (ticks (countLoop token recurse1 dir items st)) = true.
Proof.
  induction 1 as [|[item child] rest Hchild _ IH]; intros st; [now left|].
  simpl.
  destruct (isCancellationRequested token (ticks st)) eqn:Hpoll; [now right|].
  destruct (isQuickIgnored item); [now apply IH|].
  destruct (stat child) as [s|]; [|now left].
  destruct (isDirectory s); [|now apply IH].
  destruct (Hchild (Path.join dir item) (tick st)) as [E | Hc].
  - simpl in E. rewrite E. apply IH.
  - right. simpl in Hc. now rewrite (countLoop_cancelled _ _ _ _ Hc).
Qed.

Lemma countFiles_cutShort (n : node) :
  forall dir st,
    countFiles token n dir st = countFiles None n dir st \/
    isCancellationRequested token (ticks (countFiles token n dir st)) = true.
Proof.
  induction n as [size mtime text | | items IH | ] using node_induction;
    intros dir st; simpl; try (now left).
  now apply countLoop_cutShort.
Qed.

Lemma collectFilesRun_cutShort root now tr :
  cutShort token (collectFilesRun rootPath token root now tr)
                 (collectFilesRun rootPath None root now tr).
Proof.
  unfold collectFilesRun.
  destruct (countFiles_cutShort root rootPath (initialScan now tr)) as [E | Hc].
  - rewrite E. apply traverse_cutShort.
  - right. destruct (traverse_cancelled root rootPath _ Hc) as [Hf Hc'].
    split; [exact Hc'|].
    unfold keepsFiles. rewrite Hf.
    destruct (countFiles_counted token root rootPath (initialScan now tr))
      as (-> & _).
    simpl. eauto.
Qed.

End CancellationFacts.


Lemma collectFilesRun_trace rootPath token root now tr :
  exists scanning,
    trace (collectFilesRun rootPath token root now tr) = (tr ++ scanning)%list /\
    Forall (fun e => match e with
                     | ConsoleWarn _ _ | ProgressReport _ _ => True
                     | _ => False
                     end) scanning.
Proof.
  unfold collectFilesRun.
  destruct (countFiles_counted token root rootPath (initialScan now tr))
    as (_ & _ & t1 & E1 & H1).
  destruct (traverse_extends rootPath token root rootPath
              (countFiles token root rootPath (initialScan now tr)))
    as (_ & (t2 & E2 & H2) & _).
  exists (t1 ++ t2)%list. rewrite E2, E1. simpl. rewrite app_assoc.
  split; [reflexivity|]. apply Forall_app. split.
  - eapply Forall_impl; [|exact H1]. now intros e (m & c & ->).
  - eapply Forall_impl; [|exact H2]. intros [] H; simpl in *; auto.
Qed.



(** In that run the scan had read [src/a.ts] before it saw the request. *)
Example cancelled_scan_had_collected :
  collectFiles "/work" (Some 10) Samples.project 0 [firstReport] = [Samples.a_ts].
Proof. reflexivity. Qed.

(** ** A cancelled scan stops at a poll, with what it holds there *)

Lemma stoppedAt_app (t : nat) (ps1 ps2 : list scan) (final : scan) :
  stoppedAt t (ps1 ++ ps2)%list final
  = stoppedAt t ps1 (stoppedAt t ps2 final).
Proof.
  unfold stoppedAt. induction ps1 as [|p ps1 IH]; simpl; [reflexivity|].
  destruct (t <=? ticks p)%nat; [reflexivity | exact IH].
Qed.

Lemma stoppedAt_cases (t : nat) (ps : list scan) :
  (exists p, In p ps /\ isCancellationRequested (Some t) (ticks p) = true /\
             forall final, stoppedAt t ps final = p) \/
  (forall final, stoppedAt t ps final = final).
Proof.
  unfold stoppedAt.
  destruct (find (fun p => isCancellationRequested (Some t) (ticks p)) ps)
    as [p|] eqn:E.
  - left. exists p. apply find_some in E. destruct E as [Hin Hp]. auto.
  - right. reflexivity.
Qed.

Lemma stoppedAt_cons (t : nat) (p : scan) (ps : list scan) (final : scan) :
  stoppedAt t (p :: ps) final
  = if isCancellationRequested (Some t) (ticks p) then p
    else stoppedAt t ps final.
Proof.
  unfold stoppedAt. simpl. now destruct (t <=? ticks p)%nat.
Qed.

Lemma traverseLoop_cons rootPath token recurse dir item child rest st :
  traverseLoop rootPath token recurse dir ((item, child) :: rest) st
  = if isCancellationRequested token (ticks st) then st
    else if isQuickIgnored item
    then traverseLoop rootPath token recurse dir rest st
    else if isPatternIgnored (Path.relative rootPath (Path.join dir item))
    then traverseLoop rootPath token recurse dir rest st
    else
      match stat child with
      | None =>
          emit (ConsoleWarn ("Error processing directory " ++ dir ++ ":")
                            (Some (StatError (Path.join dir item))))
               (tick st)
      | Some s =>
          if isDirectory s
          then traverseLoop rootPath token recurse dir rest
                 (recurse child (Path.join dir item)
                    (reportScanning
                       (Path.relative rootPath (Path.join dir item))
                       (incrScannedFiles (tick st))))
          else traverseLoop rootPath token recurse dir rest
                 (scanFile child (Path.join dir item)
                    (Path.relative rootPath (Path.join dir item)) s
                    (reportScanning
                       (Path.relative rootPath (Path.join dir item))
                       (incrScannedFiles (tick st))))
      end.
Proof. reflexivity. Qed.

Lemma pollsLoop_cons rootPath recurse dir item child rest st :
  pollsLoop rootPath recurse dir ((item, child) :: rest) st
  = st ::
    (if isQuickIgnored item then pollsLoop rootPath recurse dir rest st
     else if isPatternIgnored (Path.relative rootPath (Path.join dir item))
     then pollsLoop rootPath recurse dir rest st
     else
       match stat child with
       | None => []
       | Some s =>
           if isDirectory s
           then (recurse child (Path.join dir item)
                   (reportScanning
                      (Path.relative rootPath (Path.join dir item))
                      (incrScannedFiles (tick st)))
                 ++ pollsLoop rootPath recurse dir rest
                      (traverse rootPath None child (Path.join dir item)
                         (reportScanning
                            (Path.relative rootPath (Path.join dir item))
                            (incrScannedFiles (tick st)))))%list
           else pollsLoop rootPath recurse dir rest
                  (scanFile child (Path.join dir item)
                     (Path.relative rootPath (Path.join dir item)) s
                     (reportScanning
                        (Path.relative rootPath (Path.join dir item))
                        (incrScannedFiles (tick st))))
       end).
Proof. reflexivity. Qed.

Lemma traverseLoop_stoppedAt (rootPath : string) (t : nat) (dir : string)
      (items : list (string * node)) :
  Forall (fun e => forall d st,
              traverse rootPath (Some t) (snd e) d st
              = stoppedAt t (polls rootPath (snd e) d st)
                          (traverse rootPath None (snd e) d st)) items ->
  forall st,
    traverseLoop rootPath (Some t) (traverse rootPath (Some t)) dir items st
    = stoppedAt t (pollsLoop rootPath (polls rootPath) dir items st)
                (traverseLoop rootPath None (traverse rootPath None)
                              dir items st).
Proof.
  induction 1 as [|[item child] rest Hchild _ IH]; intros st; [reflexivity|].
  rewrite !traverseLoop_cons, pollsLoop_cons, stoppedAt_cons.
  cbn [snd] in Hchild.
  destruct (isCancellationRequested (Some t) (ticks st)); [reflexivity|].
  cbn [isCancellationRequested].
  destruct (isQuickIgnored item); [apply IH|].
  destruct (isPatternIgnored _); [apply IH|].
  destruct (stat child) as [s|]; [|reflexivity].
  destruct (isDirectory s); [|apply IH].
  rewrite Hchild, stoppedAt_app.
  destruct (stoppedAt_cases t
              (polls rootPath child (Path.join dir item)
                 (reportScanning (Path.relative rootPath (Path.join dir item))
                                 (incrScannedFiles (tick st)))))
    as [(p & _ & Hp & E) | E]; rewrite !E.
  - now apply traverseLoop_cancelled.
  - apply IH.
Qed.

Lemma traverse_stoppedAt (rootPath : string) (t : nat) (n : node) :
  forall dir st,
    traverse rootPath (Some t) n dir st
    = stoppedAt t (polls rootPath n dir st) (traverse rootPath None n dir st).
Proof.
  induction n as [fileSize mtime text | | items IH | ] using node_induction;
    intros dir st; try reflexivity.
  simpl. now apply traverseLoop_stoppedAt.
Qed.

Lemma later_refl (p : scan) : later p p.
Proof. split; [lia | apply keepsFiles_refl]. Qed.

Lemma later_trans (p q r : scan) : later p q -> later q r -> later p r.
Proof.
  intros [T1 K1] [T2 K2]. split; [lia | now apply (keepsFiles_trans p q r)].
Qed.

Lemma later_same_files (p q : scan) :
  files q = files p -> ticks p <= ticks q -> later p q.
Proof.
  intros E H. split; [exact H|]. exists []. now rewrite app_nil_r.
Qed.

Lemma extends_later rootPath (C : Prop) (st st' : scan) :
  extends rootPath C st st' -> later st st'.
Proof.
  intros ((more & E & _) & _ & Hticks & _). split; [exact Hticks|].
  now exists more.
Qed.

Lemma stoppedAt_later (t : nat) (s : scan) (ps : list scan) (final : scan) :
  Forall (later s) ps -> later s final -> later s (stoppedAt t ps final).
Proof.
  intros Hps Hfinal.
  destruct (stoppedAt_cases t ps) as [(p & Hin & _ & E) | E]; rewrite E.
  - rewrite Forall_forall in Hps. now apply Hps.
  - exact Hfinal.
Qed.

Lemma keptFrom_nil (t : nat) (start final : scan) :
  later start final -> keptFrom t start [] final.
Proof.
  intros H. split; [constructor|]. split; [constructor|]. split; [exact H|].
  intros final' _ p [].
Qed.

Lemma keptFrom_cons (t : nat) (st : scan) (ps : list scan) (final : scan) :
  keptFrom t st ps final -> keptFrom t st (st :: ps) final.
Proof.
  intros (Hfrom & Hto & Hfinal & Hkept).
  split; [constructor; [apply later_refl | exact Hfrom]|].
  split; [constructor; [exact Hfinal | exact Hto]|].
  split; [exact Hfinal|].
  intros final' Hfinal' p Hin Hbefore. unfold stoppedAt. simpl.
  destruct (t <=? ticks st)%nat eqn:Hpoll.
  - apply Nat.leb_le in Hpoll. exfalso. destruct Hin as [<- | Hin]; [lia|].
    rewrite Forall_forall in Hfrom. destruct (Hfrom p Hin) as [Hticks _]. lia.
  - fold (stoppedAt t ps final'). destruct Hin as [<- | Hin].
    + apply (stoppedAt_later t st ps final' Hfrom).
      now apply (later_trans st final final').
    + now apply Hkept.
Qed.

Lemma keptFrom_shift (t : nat) (st st' : scan) (ps : list scan) (final : scan) :
  later st st' -> keptFrom t st' ps final -> keptFrom t st ps final.
Proof.
  intros Hst (Hfrom & Hto & Hfinal & Hkept).
  split; [|split; [exact Hto | split; [|exact Hkept]]].
  - eapply Forall_impl; [|exact Hfrom].
    intros p Hp. now apply (later_trans st st' p).
  - now apply (later_trans st st' final).
Qed.

Lemma keptFrom_app (t : nat) (s1 s2 : scan) (ps1 ps2 : list scan)
      (final : scan) :
  keptFrom t s1 ps1 s2 -> keptFrom t s2 ps2 final ->
  keptFrom t s1 (ps1 ++ ps2)%list final.
Proof.
  intros (Hfrom1 & Hto1 & Hfinal1 & Hkept1) (Hfrom2 & Hto2 & Hfinal2 & Hkept2).
  split; [|split; [|split]].
  - apply Forall_app. split; [exact Hfrom1|].
    eapply Forall_impl; [|exact Hfrom2].
    intros p Hp. now apply (later_trans s1 s2 p).
  - apply Forall_app. split; [|exact Hto2].
    eapply Forall_impl; [|exact Hto1].
    intros p Hp. now apply (later_trans p s2 final).
  - now apply (later_trans s1 s2 final).
  - intros final' Hfinal' p Hin Hbefore. rewrite stoppedAt_app.
    assert (Hrest : later s2 (stoppedAt t ps2 final')).
    { apply stoppedAt_later; [exact Hfrom2|].
      now apply (later_trans s2 final final'). }
    apply in_app_or in Hin as [Hin | Hin].
    + now apply Hkept1.
    + destruct (stoppedAt_cases t ps1) as [(q & Hq & Hseen & E) | E];
        rewrite E.
      * exfalso. simpl in Hseen. apply Nat.leb_le in Hseen.
        rewrite Forall_forall in Hto1, Hfrom2.
        destruct (Hto1 q Hq) as [T1 _]. destruct (Hfrom2 p Hin) as [T2 _]. lia.
      * now apply Hkept2.
Qed.

Lemma pollsLoop_keptFrom (rootPath : string) (t : nat) (dir : string)
      (items : list (string * node)) :
  Forall (fun e => forall d st,
              keptFrom t st (polls rootPath (snd e) d st)
                       (traverse rootPath None (snd e) d st)) items ->
  forall st,
    keptFrom t st (pollsLoop rootPath (polls rootPath) dir items st)
             (traverseLoop rootPath None (traverse rootPath None) dir items st).
Proof.
  induction 1 as [|[item child] rest Hchild _ IH]; intros st.
  { apply keptFrom_nil, later_refl. }
  simpl. apply keptFrom_cons.
  destruct (isQuickIgnored item) eqn:Hquick; [apply IH|].
  destruct (isPatternIgnored _) eqn:Hpattern; [apply IH|].
  destruct (stat child) as [s|].
  2:{ apply keptFrom_nil. apply later_same_files; simpl; [reflexivity | lia]. }
  assert (Hreport := extends_later rootPath True _ _
                       (extends_report rootPath True
                          (Path.relative rootPath (Path.join dir item)) st)).
  destruct (isDirectory s).
  - apply (keptFrom_shift t st _ _ _ Hreport).
    apply (keptFrom_app t _ _ _ _ _ (Hchild _ _) (IH _)).
  - eapply keptFrom_shift; [|apply IH].
    eapply later_trans; [exact Hreport|].
    apply (extends_later rootPath False).
    apply scanFile_extends; [exact Hquick | exact Hpattern | intros []].
Qed.

Lemma polls_keptFrom (rootPath : string) (t : nat) (n : node) :
  forall dir st,
    keptFrom t st (polls rootPath n dir st) (traverse rootPath None n dir st).
Proof.
  induction n as [fileSize mtime text | | items IH | ] using node_induction;
    intros dir st; simpl;
    try (apply keptFrom_nil; apply later_same_files; simpl;
         [reflexivity | lia]).
  apply (keptFrom_shift t st (tick st)).
  - apply later_same_files; simpl; [reflexivity | lia].
  - now apply pollsLoop_keptFrom.
Qed.

(** C9: a scan under a token that is requested at tick [t] ends in the very
    state in which the scan that nobody cancels makes its first poll at or
    after [t] (or in its last state, when no poll comes that late), so
    [collectFiles] returns the records the scan holds at that poll: every
    record held at a poll made before [t] is among them, in its place, and
    they are the first of the records the whole scan returns.  It is
    [exportProject] that drops them: with the request made by the end of the
    scan it ends with the cancellation message alone, with nothing formatted
    and nothing written. *)
Theorem C9_collectFiles_returns_partial_results :
  forall (rootPath : string) (t : nat) (tree : node) (now : nat)
         (tr : list effect),
    let counted := countFiles (Some t) tree rootPath (initialScan now tr) in
    let whole := traverse rootPath None tree rootPath counted in
    collectFilesRun rootPath (Some t) tree now tr
      = stoppedAt t (polls rootPath tree rootPath counted) whole /\
    collectFiles rootPath (Some t) tree now tr
      = files (stoppedAt t (polls rootPath tree rootPath counted) whole) /\
    (forall p,
        In p (polls rootPath tree rootPath counted) ->
        ticks p < t ->
        exists more,
          collectFiles rootPath (Some t) tree now tr = (files p ++ more)%list) /\
    (exists more,
        collectFiles rootPath None tree now tr =
          (collectFiles rootPath (Some t) tree now tr ++ more)%list) /\
    (forall localeCompare w others fsPath format,
        workspaceFolders w = Some (rootPath :: others) ->
        pickedFormat w = Some format ->
        savePath w = Some fsPath ->
        cancellation w = Some t ->
        root w = tree ->
        isCancellationRequested (Some t)
          (ticks (collectFilesRun rootPath (Some t) tree 0 [firstReport])) = true ->
        exportProject localeCompare w =
          (push (trace (collectFilesRun rootPath (Some t) tree 0 [firstReport]))
                (ShowInformationMessage "Export cancelled"),
           Ok tt)).
Proof.
  intros rootPath t tree now tr counted whole.
  assert (Hrun : collectFilesRun rootPath (Some t) tree now tr
                 = stoppedAt t (polls rootPath tree rootPath counted) whole).
  { unfold collectFilesRun. apply traverse_stoppedAt. }
  split; [exact Hrun|]. split; [|split; [|split]].
  - unfold collectFiles. now rewrite Hrun.
  - intros p Hin Hbefore. unfold collectFiles. rewrite Hrun.
    destruct (polls_keptFrom rootPath t tree rootPath counted)
      as (_ & _ & _ & Hkept).
    exact (Hkept whole (later_refl whole) p Hin Hbefore).
  - destruct (collectFilesRun_cutShort rootPath (Some t) tree now tr)
      as [E | [_ H]].
    + exists []. unfold collectFiles. now rewrite E, app_nil_r.
    + exact H.
  - intros localeCompare w others fsPath format
           Hroot Hformat Hsave Htoken Htree Hcancelled.
    unfold exportProject. rewrite Hroot, Hformat, Hsave. unfold exportTask.
    rewrite Htoken, Htree. fold firstReport. now rewrite Hcancelled.
Qed.

Lemma C9_collectFiles_returns_partial_results_witness :
  collectFiles "/work" (Some 10) Samples.project 0 [firstReport] = [Samples.a_ts] /\
  (exists more,
      collectFiles "/work" None Samples.project 0 [firstReport] =
        (collectFiles "/work" (Some 10) Samples.project 0 [firstReport] ++ more)%list) /\
  exportProject Samples.byCode (Samples.cancelledAt 10) =
    (push (trace (collectFilesRun "/work" (Some 10) Samples.project 0 [firstReport]))
          (ShowInformationMessage "Export cancelled"),
     Ok tt).
Proof.
  destruct (C9_collectFiles_returns_partial_results
              "/work" 10 Samples.project 0 [firstReport])
    as (_ & Hfiles & _ & Hprefix & Hexport).
  split; [|split].
  - rewrite Hfiles. reflexivity.
  - exact Hprefix.
  - apply (Hexport Samples.byCode (Samples.cancelledAt 10) []
                   "/work/project-export.md" Markdown); reflexivity.
Defined.

(** ** The progress increment when no file was counted *)

Lemma countLoop_scannedFiles token recurse dir items :
  Forall (fun e => forall d st,
              scannedFiles (recurse (snd e) d st) = scannedFiles st) items ->
  forall st,
    scannedFiles (countLoop token recurse dir items st) = scannedFiles st.
Proof.
  induction 1 as [|[item child] rest Hchild _ IH]; intros st; simpl;
    [reflexivity|].
  destruct (isCancellationRequested token (ticks st)); [reflexivity|].
  destruct (isQuickIgnored item); [apply IH|].
  destruct (stat child) as [s|]; [|reflexivity].
  destruct (isDirectory s).
  - rewrite IH. now rewrite Hchild.
  - now rewrite IH.
Qed.

Lemma countFiles_scannedFiles token (n : node) :
  forall dir st, scannedFiles (countFiles token n dir st) = scannedFiles st.
Proof.
  induction n as [fileSize mtime text | | items IH | ] using node_induction;
    intros dir st; try reflexivity.
  simpl. now rewrite (countLoop_scannedFiles token (countFiles token) dir items IH).
Qed.

(** Entries that the two filters skip leave the scanning loop where it is. *)
Lemma traverseLoop_skips rootPath token recurse dir before items st :
  forallb (fun e => skipped rootPath dir (fst e)) before = true ->
  isCancellationRequested token (ticks st) = false ->
  traverseLoop rootPath token recurse dir (before ++ items)%list st
  = traverseLoop rootPath token recurse dir items st.
Proof.
  intros Hskipped Hpoll.
  induction before as [|[item child] before IH]; [reflexivity|].
  simpl in Hskipped. apply andb_true_iff in Hskipped as [Hitem Hskipped].
  unfold skipped in Hitem. simpl. rewrite Hpoll.
  destruct (isQuickIgnored item); [now apply IH|].
  simpl in Hitem. rewrite Hitem. now apply IH.
Qed.

Lemma traverseLoop_all_skipped rootPath token recurse dir items st :
  forallb (fun e => skipped rootPath dir (fst e)) items = true ->
  traverseLoop rootPath token recurse dir items st = st.
Proof.
  intros Hskipped.
  induction items as [|[item child] items IH]; [reflexivity|].
  simpl in Hskipped. apply andb_true_iff in Hskipped as [Hitem Hskipped].
  unfold skipped in Hitem. simpl.
  destruct (isCancellationRequested token (ticks st)); [reflexivity|].
  destruct (isQuickIgnored item); [now apply IH|].
  simpl in Hitem. rewrite Hitem. now apply IH.
Qed.

(** The entry that the loop examines first is reported first, with the
    increment [100 / totalFiles]. *)
Lemma traverseLoop_first_report rootPath token dir item child rest st :
  isCancellationRequested token (ticks st) = false ->
  skipped rootPath dir item = false ->
  stat child <> None ->
  exists later,
    trace (traverseLoop rootPath token (traverse rootPath token) dir
                        ((item, child) :: rest) st)
    = (trace st
       ++ ProgressReport
            (scanningMessage (Path.relative rootPath (Path.join dir item))
                             (incrScannedFiles (tick st)))
            (divide 100 (N.of_nat (totalFiles st)))
       :: later)%list /\
    Forall (scanEffect (totalFiles st)) later.
Proof.
  intros Hpoll Hskipped Hstat. unfold skipped in Hskipped.
  apply orb_false_elim in Hskipped as [Hquick Hpattern].
  simpl. rewrite Hpoll, Hquick, Hpattern.
  destruct (stat child) as [s|]; [|contradiction].
  set (st1 := reportScanning _ _).
  assert (Hrest : forall st',
             exists more,
               trace (traverseLoop rootPath token (traverse rootPath token)
                                   dir rest st')
               = (trace st' ++ more)%list /\
               Forall (scanEffect (totalFiles st')) more).
  { intros st'.
    destruct (traverseLoop_extends rootPath token (traverse rootPath token)
                dir rest) with (st := st') as (_ & H & _).
    - apply Forall_forall. intros e _ d st2. apply traverse_extends.
    - exact H. }
  assert (Hstep : forall st2,
             (exists more, trace st2 = (trace st1 ++ more)%list /\
                           Forall (scanEffect (totalFiles st1)) more) ->
             totalFiles st2 = totalFiles st1 ->
             exists later,
               trace (traverseLoop rootPath token (traverse rootPath token)
                                   dir rest st2)
               = (trace st
                  ++ ProgressReport
                       (scanningMessage
                          (Path.relative rootPath (Path.join dir item))
                          (incrScannedFiles (tick st)))
                       (divide 100 (N.of_nat (totalFiles st)))
                  :: later)%list /\
               Forall (scanEffect (totalFiles st)) later).
  { intros st2 (m1 & E1 & H1) T1.
    destruct (Hrest st2) as (m2 & E2 & H2).
    exists (m1 ++ m2)%list. split.
    - rewrite E2, E1. unfold st1, reportScanning, emit, push. simpl.
      now rewrite <- !app_assoc.
    - rewrite T1 in H2. apply Forall_app. split; assumption. }
  destruct (isDirectory s).
  - destruct (traverse_extends rootPath token child (Path.join dir item) st1)
      as (_ & H & _ & T).
    now apply Hstep.
  - destruct (scanFile_extends rootPath False dir item child s st1
                Hquick Hpattern (fun F : False => match F with end))
      as (_ & H & _ & T).
    now apply Hstep.
Qed.

(** C10: take a root directory for which the counting pass leaves
    [totalFiles] at zero.  If the first of its entries that the two filters
    do not skip can be described by [stat], and the token is not requested
    at that poll, the scanning pass reports this entry with the increment
    [100 / totalFiles], that is 100 / 0: nothing guards the division, its
    value is [Infinity], and so is that of every later report.  If the
    filters skip every entry, as on an empty root or on a root whose entries
    are all quick-ignored, the scanning pass examines no entry and adds
    nothing to the trace: no increment is computed. *)
Theorem C10_progress_increment_divides_by_zero :
  forall (rootPath : string) (token : CancellationToken)
         (items : list (string * node)) (now : nat) (tr : list effect),
    let tree := Directory (Some items) in
    let counted := countFiles token tree rootPath (initialScan now tr) in
    totalFiles counted = 0 ->
    (forall before item child rest,
        items = (before ++ (item, child) :: rest)%list ->
        forallb (fun e => skipped rootPath rootPath (fst e)) before = true ->
        skipped rootPath rootPath item = false ->
        stat child <> None ->
        isCancellationRequested token (S (ticks counted)) = false ->
        exists increment later,
          trace (collectFilesRun rootPath token tree now tr)
          = (trace counted
             ++ ProgressReport
                  ("Scanning: " ++ Path.relative rootPath (Path.join rootPath item)
                   ++ " (1/0)")
                  increment
             :: later)%list /\
          increment = divide 100 (N.of_nat (totalFiles counted)) /\
          increment = Infinity /\
          Forall (fun e => forall message increment',
                      e = ProgressReport message increment' ->
                      increment' = Infinity) later) /\
    (forallb (fun e => skipped rootPath rootPath (fst e)) items = true ->
     trace (collectFilesRun rootPath token tree now tr) = trace counted).
Proof.
  intros rootPath token items now tr tree counted Hzero. split.
  - intros before item child rest -> Hbefore Hitem Hstat Hpoll.
    assert (Hscanned : scannedFiles counted = 0).
    { unfold counted. now rewrite countFiles_scannedFiles. }
    unfold collectFilesRun. fold tree counted.
    unfold tree at 1. cbn [traverse].
    rewrite (traverseLoop_skips rootPath token (traverse rootPath token)
               rootPath before _ (tick counted) Hbefore Hpoll).
    destruct (traverseLoop_first_report rootPath token rootPath item child rest
                (tick counted) Hpoll Hitem Hstat) as (later & E & Hlater).
    exists (divide 100 0), later. split; [|split; [|split]].
    + rewrite E. unfold scanningMessage. cbn [scannedFiles totalFiles trace
        incrScannedFiles tick]. now rewrite Hscanned, Hzero.
    + now rewrite Hzero.
    + reflexivity.
    + cbn [totalFiles tick] in Hlater. rewrite Hzero in Hlater.
      eapply Forall_impl; [|exact Hlater].
      intros e He message increment' ->. simpl in He. now destruct He as [-> _].
  - intros Hskipped. unfold collectFilesRun. fold tree counted.
    unfold tree at 1. cbn [traverse].
    now rewrite (traverseLoop_all_skipped rootPath token
                   (traverse rootPath token) rootPath items (tick counted)
                   Hskipped).
Qed.

Lemma C10_progress_increment_divides_by_zero_witness :
  (exists increment later,
      trace (collectFilesRun "/work" None Samples.emptySrc 0 [])
      = ([] ++ ProgressReport "Scanning: src (1/0)" increment :: later)%list /\
      increment = divide 100 0 /\
      increment = Infinity /\
      Forall (fun e => forall message increment',
                  e = ProgressReport message increment' ->
                  increment' = Infinity) later) /\
  trace (collectFilesRun "/work" None
           (Directory (Some [("node_modules", Directory (Some []))])) 0 []) = [].
Proof.
  split.
  - exact (proj1 (C10_progress_increment_divides_by_zero
                    "/work" None [("src", Directory (Some []))] 0 [] eq_refl)
                 [] "src" (Directory (Some [])) [] eq_refl eq_refl eq_refl
                 (fun H => match H with eq_refl => I end) eq_refl).
  - exact (proj2 (C10_progress_increment_divides_by_zero
                    "/work" None [("node_modules", Directory (Some []))] 0 []
                    eq_refl)
                 eq_refl).
Defined.

(** The claim as it is worded, with its own examples: on an empty root, and
    on a root whose only entry is quick-ignored, the counting pass finds no
    file, and yet the scanning pass makes no progress report at all: the
    increment is not computed. *)
Lemma C10_no_increment_without_entry_counterexample :
  (totalFiles (countFiles None (Directory (Some [])) "/work" (initialScan 0 []))
   = 0 /\
   forall message increment,
     ~ In (ProgressReport message increment)
          (trace (collectFilesRun "/work" None (Directory (Some [])) 0 []))) /\
  (totalFiles
     (countFiles None
        (Directory (Some [("node_modules", Directory (Some []))]))
        "/work" (initialScan 0 []))
   = 0 /\
   forall message increment,
     ~ In (ProgressReport message increment)
          (trace (collectFilesRun "/work" None
                    (Directory (Some [("node_modules", Directory (Some []))]))
                    0 []))).
Proof.
  split; (split; [reflexivity | intros message increment []]).
Qed.

(** The division is reached on a root that holds one empty directory. *)
Example division_by_zero_reached :
  trace (collectFilesRun "/work" None Samples.emptySrc 0 []) =
  [ProgressReport "Scanning: src (1/0)" Infinity].
Proof. reflexivity. Qed.

(** ** Sorting *)

Section SortFacts.

Context {A : Type}.
Variable compare : A -> A -> result Z.

Lemma insertSorted_permutation (x : A) :
  forall l r, insertSorted compare x l = Ok r -> Permutation (x :: l) r.
Proof.
  induction l as [|y l IH]; simpl; intros r H.
  - injection H as <-. apply Permutation_refl.
  - destruct (compare x y) as [c|]; simpl in H; [|discriminate].
    destruct (c <=? 0)%Z.
    + injection H as <-. apply Permutation_refl.
    + destruct (insertSorted compare x l) as [r'|]; simpl in H; [|discriminate].
      injection H as <-.
      eapply perm_trans; [apply perm_swap|]. apply perm_skip. now apply IH.
Qed.

Lemma sort_permutation :
  forall l s, sort compare l = Ok s -> Permutation l s.
Proof.
  induction l as [|x l IH]; simpl; intros s H.
  - injection H as <-. apply perm_nil.
  - destruct (sort compare l) as [s'|]; simpl in H; [|discriminate].
    eapply perm_trans; [apply perm_skip, IH; reflexivity|].
    now apply insertSorted_permutation.
Qed.

Section Ordered.

Variable before : A -> A -> Prop.
Hypothesis before_trans :
  forall x y z, before x y -> before y z -> before x z.
Hypothesis compare_before :
  forall x y c, compare x y = Ok c ->
                ((c <= 0)%Z -> before x y) /\ ((0 < c)%Z -> before y x).

Lemma insertSorted_sorted (x : A) :
  forall l r, StronglySorted before l ->
              insertSorted compare x l = Ok r ->
              StronglySorted before r.
Proof.
  induction l as [|y l IH]; simpl; intros r Hs H.
  - injection H as <-. repeat constructor.
  - destruct (compare x y) as [c|] eqn:Hc; simpl in H; [|discriminate].
    destruct (compare_before _ _ _ Hc) as [Hle Hgt].
    inversion Hs as [|? ? Hs' Hall]; subst.
    destruct (Z.leb_spec c 0).
    + injection H as <-. constructor; [exact Hs|].
      constructor; [auto|].
      eapply Forall_impl; [|exact Hall]. intros z. apply before_trans. auto.
    + destruct (insertSorted compare x l) as [r'|] eqn:Hr; simpl in H;
        [|discriminate].
      injection H as <-. constructor; [now apply IH|].
      apply (Permutation_Forall (insertSorted_permutation _ _ _ Hr)).
      constructor; auto.
Qed.

Lemma sort_sorted :
  forall l s, sort compare l = Ok s -> StronglySorted before s.
Proof.
  induction l as [|x l IH]; simpl; intros s H.
  - injection H as <-. constructor.
  - destruct (sort compare l) as [s'|]; simpl in H; [|discriminate].
    eapply insertSorted_sorted; [|exact H]. now apply IH.
Qed.

End Ordered.

(** A comparator that throws on none of the elements lets the sort finish. *)
Lemma insertSorted_succeeds (P : A -> Prop) (x : A) :
  (forall a b, P a -> P b -> exists c, compare a b = Ok c) ->
  P x ->
  forall l, Forall P l -> exists r, insertSorted compare x l = Ok r.
Proof.
  intros Hok Hx. induction 1 as [|y l Hy _ IH]; simpl; eauto.
  destruct (Hok x y Hx Hy) as [c ->]. simpl.
  destruct (c <=? 0)%Z; eauto.
  destruct IH as [r ->]. simpl. eauto.
Qed.

Lemma sort_succeeds (P : A -> Prop) :
  (forall a b, P a -> P b -> exists c, compare a b = Ok c) ->
  forall l, Forall P l -> exists s, sort compare l = Ok s.
Proof.
  intros Hok. induction 1 as [|x l Hx Hl IH]; simpl; eauto.
  destruct IH as [s E]. rewrite E. simpl.
  apply (insertSorted_succeeds P); auto.
  apply (Permutation_Forall (sort_permutation _ _ E)). exact Hl.
Qed.

End SortFacts.

(** ** The structure-building traversal *)

Lemma filter_permutation {A : Type} (f : A -> bool) (l l' : list A) :
  Permutation l l' -> Permutation (filter f l) (filter f l').
Proof.
  induction 1 as [| x l l' _ IH | x y l | l l' l'' _ IH1 _ IH2]; simpl.
  - apply perm_nil.
  - destruct (f x); [now apply perm_skip | exact IH].
  - destruct (f x), (f y); try apply Permutation_refl. apply perm_swap.
  - now apply perm_trans with (filter f l').
Qed.

Lemma filter_stronglySorted {A : Type} (R : A -> A -> Prop) (f : A -> bool) l :
  StronglySorted R l -> StronglySorted R (filter f l).
Proof.
  induction 1 as [|x l _ IH Hall]; simpl; [constructor|].
  destruct (f x); [|exact IH].
  constructor; [exact IH|].
  apply Forall_forall. intros y Hy. apply filter_In in Hy as [Hy _].
  rewrite Forall_forall in Hall. auto.
Qed.

Lemma map_stronglySorted {A B : Type} (g : A -> B) (R : B -> B -> Prop) l :
  StronglySorted (fun a b => R (g a) (g b)) l -> StronglySorted R (map g l).
Proof.
  induction 1 as [|x l _ IH Hall]; simpl; constructor; [exact IH|].
  apply Forall_map. exact Hall.
Qed.

Section StructureFacts.

Variable localeCompare : string -> string -> Z.
Variable rootPath : string.

Let annotate (e : string * node) : entry :=
  (fst e, snd e, structureTraverse localeCompare rootPath (snd e)).

Lemma structureTraverse_directory listing dir prefix items :
  structureTraverse localeCompare rootPath (Directory (Some listing))
                    dir prefix items =
  (sorted <- sort (compareEntries localeCompare dir) (map annotate listing) ;;
   structureLoop rootPath dir prefix sorted items).
Proof. reflexivity. Qed.

Lemma stat_isDirectory n s :
  stat n = Some s -> isDirectory s = isDirectoryNode n.
Proof. destruct n; simpl; intros H; now inversion H. Qed.

Lemma structureLoop_cons dir prefix e rest items :
  structureLoop rootPath dir prefix (e :: rest) items =
  let file := entryName e in
  let fullPath := Path.join dir file in
  if isQuickIgnored file then structureLoop rootPath dir prefix rest items
  else if isPatternIgnored (Path.relative rootPath fullPath)
  then structureLoop rootPath dir prefix rest items
  else
    match stat (entryNode e) with
    | None => Throw (StatError fullPath)
    | Some s =>
        if isDirectory s
        then
          items' <- entryWalk e fullPath (prefix ++ "  ")
                      (push items (prefix ++ dirMarker ++ file)) ;;
          structureLoop rootPath dir prefix rest items'
        else if negb (isBinaryPath fullPath)
        then structureLoop rootPath dir prefix rest
               (push items (prefix ++ fileMarker ++ file))
        else structureLoop rootPath dir prefix rest items
    end.
Proof. reflexivity. Qed.

Lemma structureLoop_additive dir prefix sorted :
  Forall (fun e => additive (entryWalk e)) sorted ->
  forall items,
    structureLoop rootPath dir prefix sorted items =
    (lines <- structureLoop rootPath dir prefix sorted [] ;;
     Ok (items ++ lines)%list).
Proof.
  induction 1 as [|e rest He _ IH]; intros items.
  { simpl. now rewrite app_nil_r. }
  rewrite !structureLoop_cons. cbv zeta.
  destruct (isQuickIgnored (entryName e)); [apply IH|].
  destruct (isPatternIgnored _); [apply IH|].
  destruct (stat (entryNode e)) as [s|]; [|reflexivity].
  destruct (isDirectory s).
  - rewrite (He _ _ (push items _)), (He _ _ (push [] _)).
    destruct (entryWalk e _ _ []) as [below|]; cbn [bind]; [|reflexivity].
    rewrite IH, (IH (push [] _ ++ below)%list).
    destruct (structureLoop rootPath dir prefix rest []) as [lines|];
      cbn [bind]; [|reflexivity].
    unfold push. now rewrite <- !app_assoc.
  - destruct (negb _); [|apply IH].
    rewrite IH, (IH (push [] _)).
    destruct (structureLoop rootPath dir prefix rest []) as [lines|];
      cbn [bind]; [|reflexivity].
    unfold push. now rewrite <- !app_assoc.
Qed.

Lemma structureTraverse_additive (n : node) :
  additive (structureTraverse localeCompare rootPath n).
Proof.
  induction n as [size mtime text | | listing IH | ] using node_induction;
    intros dir prefix items; try reflexivity.
  rewrite !structureTraverse_directory.
  destruct (sort _ _) as [sorted|] eqn:Hsort; simpl; [|reflexivity].
  apply structureLoop_additive.
  apply (Permutation_Forall (sort_permutation _ _ _ Hsort)).
  apply Forall_map. exact IH.
Qed.

Lemma structureLoop_blocks dir prefix sorted :
  Forall (fun e => entryWalk e =
                   structureTraverse localeCompare rootPath (entryNode e))
         sorted ->
  forall items out,
    structureLoop rootPath dir prefix sorted items = Ok out ->
    exists blocks,
      Forall2 (blockOf localeCompare rootPath dir prefix)
              (map fst (filter (fun e => listed rootPath dir (fst e)) sorted))
              blocks /\
      out = (items ++ concat blocks)%list.
Proof.
  induction 1 as [|[[file child] walk] rest He _ IH]; intros items out H.
  { injection H as <-. exists []. split; [constructor | now rewrite app_nil_r]. }
  rewrite structureLoop_cons in H.
  unfold entryName, entryNode, entryWalk in *. cbn [fst snd] in *.
  cbn [filter]. unfold listed at 1. cbn [fst snd].
  destruct (isQuickIgnored file); [now apply IH|].
  destruct (isPatternIgnored _); [now apply IH|].
  destruct (stat child) as [s|] eqn:Hstat; [|discriminate].
  rewrite (stat_isDirectory _ _ Hstat) in H.
  destruct (isDirectoryNode child) eqn:Hdir; cbn [negb andb orb].
  - subst walk. rewrite structureTraverse_additive in H.
    destruct (structureTraverse _ _ child _ _ []) as [below|] eqn:Hbelow;
      cbn [bind] in H; [|discriminate].
    destruct (IH _ _ H) as (blocks & Hblocks & ->).
    exists ((entryLine prefix (file, child) :: below) :: blocks). split.
    + constructor; [|exact Hblocks].
      exists below. cbn [fst snd]. rewrite Hdir. auto.
    + unfold push, entryLine. cbn [fst snd concat]. rewrite Hdir.
      now rewrite <- !app_assoc.
  - destruct (isBinaryPath _); cbn [negb] in *; [now apply IH|].
    destruct (IH _ _ H) as (blocks & Hblocks & ->).
    exists ([entryLine prefix (file, child)] :: blocks). split.
    + constructor; [|exact Hblocks].
      exists []. cbn [fst snd]. rewrite Hdir. auto.
    + unfold push, entryLine. cbn [fst snd concat]. rewrite Hdir.
      now rewrite <- !app_assoc.
Qed.

Lemma filter_annotate dir listing :
  map fst (filter (fun e : entry => listed rootPath dir (fst e))
                  (map annotate listing)) =
  filter (listed rootPath dir) listing.
Proof.
  induction listing as [|[file child] listing IH]; simpl; [reflexivity|].
  destruct (listed rootPath dir (file, child)); simpl; now rewrite IH.
Qed.

(** What a successful traversal of a directory returns: the blocks of the
    entries it shows, in the order the sort has put them in. *)
Lemma structureTraverse_blocks listing dir prefix items out :
  structureTraverse localeCompare rootPath (Directory (Some listing))
                    dir prefix items = Ok out ->
  exists sorted blocks,
    sort (compareEntries localeCompare dir) (map annotate listing) = Ok sorted /\
    Permutation (map fst (filter (fun e => listed rootPath dir (fst e)) sorted))
                (filter (listed rootPath dir) listing) /\
    Forall2 (blockOf localeCompare rootPath dir prefix)
            (map fst (filter (fun e => listed rootPath dir (fst e)) sorted))
            blocks /\
    out = (items ++ concat blocks)%list.
Proof.
  rewrite structureTraverse_directory.
  destruct (sort _ _) as [sorted|] eqn:Hsort; simpl; [|discriminate].
  intros H.
  assert (Hperm := sort_permutation _ _ _ Hsort).
  destruct (structureLoop_blocks dir prefix sorted) with (2 := H)
    as (blocks & Hblocks & ->).
  { apply (Permutation_Forall Hperm). apply Forall_map.
    apply Forall_forall. reflexivity. }
  exists sorted, blocks. repeat split; auto.
  rewrite <- filter_annotate.
  apply Permutation_map, filter_permutation. now apply Permutation_sym.
Qed.

Lemma compareEntries_before dir :
  (forall a b, (localeCompare a b <= 0)%Z \/ (localeCompare b a <= 0)%Z) ->
  forall (x y : entry) c,
    compareEntries localeCompare dir x y = Ok c ->
    ((c <= 0)%Z -> entryBefore localeCompare (fst x) (fst y)) /\
    ((0 < c)%Z -> entryBefore localeCompare (fst y) (fst x)).
Proof.
  intros Htotal [[a na] wa] [[b nb] wb] c. unfold compareEntries, statSyncIsDirectory.
  unfold entryName, entryNode, entryBefore. simpl.
  destruct (stat na) as [sa|] eqn:Ha; simpl; [|discriminate].
  destruct (stat nb) as [sb|] eqn:Hb; simpl; [|discriminate].
  rewrite (stat_isDirectory _ _ Ha), (stat_isDirectory _ _ Hb).
  destruct (isDirectoryNode na), (isDirectoryNode nb); simpl; intros H;
    injection H as <-; split; intros Hc; try lia; auto.
  - right. split; [reflexivity|]. destruct (Htotal a b); [lia | assumption].
  - right. split; [reflexivity|]. destruct (Htotal a b); [lia | assumption].
Qed.

Lemma entryBefore_trans :
  (forall a b c, (localeCompare a b <= 0)%Z -> (localeCompare b c <= 0)%Z ->
                 (localeCompare a c <= 0)%Z) ->
  forall x y z,
    entryBefore localeCompare x y -> entryBefore localeCompare y z ->
    entryBefore localeCompare x z.
Proof.
  intros Htrans x y z [[Hx Hy] | [Hxy Hle1]] [[Hy' Hz] | [Hyz Hle2]].
  - congruence.
  - left. split; congruence.
  - left. split; congruence.
  - right. split; [congruence | eauto].
Qed.

(** C6: whatever the order of the listing, the entries that the structure
    traversal shows for a directory, each followed by the listing of what
    is below it, are the shown entries of the listing arranged so that
    every directory comes before every file and, within the directories
    and within the files, the names follow the collation order. *)
Theorem C6_structure_entries_sorted :
  (forall a b, (localeCompare a b <= 0)%Z \/ (localeCompare b a <= 0)%Z) ->
  (forall a b c, (localeCompare a b <= 0)%Z -> (localeCompare b c <= 0)%Z ->
                 (localeCompare a c <= 0)%Z) ->
  forall (listing : list (string * node)) (dir prefix : string)
         (items out : list string),
    structureTraverse localeCompare rootPath (Directory (Some listing))
                      dir prefix items = Ok out ->
    exists (children : list (string * node)) (blocks : list (list string)),
      Permutation children (filter (listed rootPath dir) listing) /\
      StronglySorted (entryBefore localeCompare) children /\
      Forall2 (blockOf localeCompare rootPath dir prefix) children blocks /\
      out = (items ++ concat blocks)%list.
Proof.
  intros Htotal Htrans listing dir prefix items out H.
  destruct (structureTraverse_blocks _ _ _ _ _ H)
    as (sorted & blocks & Hsort & Hperm & Hblocks & Hout).
  exists (map fst (filter (fun e => listed rootPath dir (fst e)) sorted)), blocks.
  repeat split; auto.
  apply map_stronglySorted, filter_stronglySorted.
  apply (sort_sorted (compareEntries localeCompare dir)
           (fun a b : entry => entryBefore localeCompare (fst a) (fst b)))
    with (3 := Hsort).
  - intros x y z. apply entryBefore_trans. exact Htrans.
  - apply compareEntries_before. exact Htotal.
Qed.

End StructureFacts.

(** ** The sample collation is a total preorder *)

Lemma byCode_total (a b : string) :
  (Samples.byCode a b <= 0)%Z \/ (Samples.byCode b a <= 0)%Z.
Proof.
  unfold Samples.byCode. rewrite (String.compare_antisym b a).
  destruct (String.compare a b); simpl; lia.
Qed.

Lemma byCode_trans (a b c : string) :
  (Samples.byCode a b <= 0)%Z -> (Samples.byCode b c <= 0)%Z ->
  (Samples.byCode a c <= 0)%Z.
Proof.
  unfold Samples.byCode.
  destruct (String.compare a b) eqn:Hab;
    destruct (String.compare b c) eqn:Hbc; try (intros; lia); intros _ _.
  - apply String_as_OT.cmp_eq in Hab. subst. now rewrite Hbc.
  - apply String_as_OT.cmp_eq in Hab. subst. now rewrite Hbc.
  - apply String_as_OT.cmp_eq in Hbc. subst. now rewrite Hab.
  - apply String_as_OT.cmp_lt in Hab, Hbc.
    assert (H := String_as_OT.lt_trans _ _ _ Hab Hbc).
    apply String_as_OT.cmp_lt in H. unfold String_as_OT.cmp in H.
    now rewrite H.
Qed.

Lemma C6_structure_entries_sorted_witness :
  exists (children : list (string * node)) (blocks : list (list string)),
    Permutation children (filter (listed "/work" "/work") Samples.unordered) /\
    StronglySorted (entryBefore Samples.byCode) children /\
    Forall2 (blockOf Samples.byCode "/work" "/work" EmptyString) children blocks /\
    Samples.unorderedLines = ([] ++ concat blocks)%list.
Proof.
  apply (C6_structure_entries_sorted Samples.byCode "/work"
           byCode_total byCode_trans Samples.unordered "/work" EmptyString []).
  vm_compute. reflexivity.
Defined.

(** Two listings of the same entries give the same structure lines. *)
Example structure_ignores_listing_order :
  structureTraverse Samples.byCode "/work"
    (Directory (Some (rev Samples.unordered))) "/work" EmptyString [] =
  structureTraverse Samples.byCode "/work"
    (Directory (Some Samples.unordered)) "/work" EmptyString [].
Proof. vm_compute. reflexivity. Qed.

(** ** The size threshold *)

Lemma Forall2_In_l {A B : Type} (R : A -> B -> Prop) l l' x :
  Forall2 R l l' -> In x l -> exists y, In y l' /\ R x y.
Proof.
  induction 1 as [|a b l l' Hab _ IH]; simpl; [contradiction|].
  intros [<- | Hx].
  - exists b. auto.
  - destruct (IH Hx) as (y & Hy & Hr). exists y. auto.
Qed.

Lemma readable_stat n : readable n = true -> exists s, stat n = Some s.
Proof. destruct n as [size mtime text | [items|] | ]; simpl; eauto; discriminate. Qed.

Lemma fileAt_directory rootPath n dir prefix fullPath name linePrefix size mtime text :
  fileAt rootPath n dir prefix fullPath name linePrefix size mtime text ->
  isDirectoryNode n = true.
Proof. now destruct 1. Qed.

Section ThresholdFacts.

Variable rootPath : string.

(** Without cancellation and on a readable tree the scanning loop gets to
    every entry of the listing. *)
Lemma traverseLoop_reaches (Q : scan -> Prop) dir items item child :
  (forall st st', Q st -> extends rootPath False st st' -> Q st') ->
  forallb (fun e => readable (snd e)) items = true ->
  In (item, child) items ->
  isQuickIgnored item = false ->
  isPatternIgnored (Path.relative rootPath (Path.join dir item)) = false ->
  (forall st s,
      stat child = Some s ->
      Q (if isDirectory s
         then traverse rootPath None child (Path.join dir item) st
         else scanFile child (Path.join dir item)
                       (Path.relative rootPath (Path.join dir item)) s st)) ->
  forall st, Q (traverseLoop rootPath None (traverse rootPath None) dir items st).
Proof.
  intros Qmono Hreadable Hin Hquick Hpattern Hstep.
  assert (Hloop : forall rest st,
             extends rootPath False st
               (traverseLoop rootPath None (traverse rootPath None) dir rest st)).
  { intros rest st. eapply extends_weaken; [|apply traverseLoop_extends].
    - contradiction.
    - apply Forall_forall. intros e _ d st'. apply traverse_extends. }
  induction items as [|[item' child'] rest IH]; intros st; [contradiction|].
  simpl in Hreadable. apply andb_true_iff in Hreadable as [Hhead Hrest].
  destruct (readable_stat _ Hhead) as [s Hs].
  destruct Hin as [E | Hin].
  - injection E as -> ->. simpl. rewrite Hquick, Hpattern, Hs.
    specialize (Hstep (reportScanning
                         (Path.relative rootPath (Path.join dir item))
                         (incrScannedFiles (tick st))) s Hs).
    destruct (isDirectory s); eapply Qmono; eauto.
  - specialize (IH Hrest Hin). simpl.
    destruct (isQuickIgnored item'); [apply IH|].
    destruct (isPatternIgnored (Path.relative rootPath (Path.join dir item')));
      [apply IH|].
    rewrite Hs. destruct (isDirectory s); apply IH.
Qed.

Lemma traverse_reaches (Q : scan -> Prop)
      n dir prefix fullPath name linePrefix size mtime text :
  (forall st st', Q st -> extends rootPath False st st' -> Q st') ->
  fileAt rootPath n dir prefix fullPath name linePrefix size mtime text ->
  readable n = true ->
  (forall st,
      Q (scanFile (File size mtime text) fullPath
                  (Path.relative rootPath fullPath)
                  {| isDirectory := false; statSize := size; statMtime := mtime |}
                  st)) ->
  forall st, Q (traverse rootPath None n dir st).
Proof.
  intros Qmono Hat. induction Hat
    as [listing dir prefix item size mtime text Hin Hquick Hpattern
       | listing dir prefix item sub fullPath name linePrefix size mtime text
                 Hin Hquick Hpattern Hat IH];
    intros Hreadable Hleaf st; simpl in Hreadable |- *.
  - apply (traverseLoop_reaches Q dir listing item (File size mtime text));
      auto.
    intros st' s Hs. injection Hs as <-. simpl. apply Hleaf.
  - apply (traverseLoop_reaches Q dir listing item sub); auto.
    intros st' s Hs.
    assert (Hsub : readable sub = true).
    { rewrite forallb_forall in Hreadable. apply (Hreadable _ Hin). }
    destruct sub as [? ? ? | ? | ];
      try (apply fileAt_directory in Hat; discriminate).
    injection Hs as <-. simpl. now apply IH.
Qed.

Lemma files_monotone (f : FileData) st st' :
  In f (files st) -> extends rootPath False st st' -> In f (files st').
Proof.
  intros H ((more & -> & _) & _). apply in_or_app. now left.
Qed.

Lemma trace_monotone (e : effect) st st' :
  In e (trace st) -> extends rootPath False st st' -> In e (trace st').
Proof.
  intros H (_ & (more & -> & _) & _). apply in_or_app. now left.
Qed.

Variable localeCompare : string -> string -> Z.

Lemma structureLoop_succeeds dir prefix sorted :
  Forall (fun e =>
            (exists s, stat (entryNode e) = Some s) /\
            (isDirectoryNode (entryNode e) = true ->
             forall d p items, exists out, entryWalk e d p items = Ok out))
         sorted ->
  forall items, exists out,
      structureLoop rootPath dir prefix sorted items = Ok out.
Proof.
  induction 1 as [|e rest [[s Hs] Hwalk] _ IH]; intros items.
  { simpl. eauto. }
  rewrite structureLoop_cons. cbv zeta.
  destruct (isQuickIgnored _); [apply IH|].
  destruct (isPatternIgnored _); [apply IH|].
  rewrite Hs, (stat_isDirectory _ _ Hs).
  destruct (isDirectoryNode (entryNode e)) eqn:Hdir.
  - destruct (Hwalk eq_refl (Path.join dir (entryName e)) (prefix ++ "  ")
                    (push items (prefix ++ dirMarker ++ entryName e)))
      as [items' ->].
    cbn [bind]. apply IH.
  - destruct (negb _); apply IH.
Qed.

(** On a readable tree the structure traversal of a directory returns. *)
Lemma structureTraverse_succeeds (n : node) :
  readable n = true -> isDirectoryNode n = true ->
  forall dir prefix items, exists out,
      structureTraverse localeCompare rootPath n dir prefix items = Ok out.
Proof.
  induction n as [size mtime text | | listing IH | ] using node_induction;
    try discriminate.
  intros Hreadable _ dir prefix items. simpl in Hreadable.
  rewrite structureTraverse_directory.
  set (annotate := fun e : string * node =>
                     (fst e, snd e, structureTraverse localeCompare rootPath (snd e))).
  assert (Hall : Forall (fun e : entry =>
              (exists s, stat (entryNode e) = Some s) /\
              (isDirectoryNode (entryNode e) = true ->
               forall d p items, exists out, entryWalk e d p items = Ok out))
            (map annotate listing)).
  { apply Forall_map. rewrite Forall_forall in IH |- *.
    rewrite forallb_forall in Hreadable.
    intros e He. unfold annotate, entryNode, entryWalk. simpl. split.
    - apply readable_stat. auto.
    - intros Hdir. apply IH; auto. }
  destruct (sort_succeeds (compareEntries localeCompare dir)
              (fun e => exists s, stat (entryNode e) = Some s))
    with (l := @map (string * node) entry annotate listing)
    as [sorted Hsort].
  - intros a b [sa Ha] [sb Hb].
    unfold compareEntries, statSyncIsDirectory. rewrite Ha, Hb. cbn [bind].
    destruct (_ && _); [eauto|]. destruct (_ && _); eauto.
  - eapply Forall_impl; [|exact Hall]. now intros e [H _].
  - rewrite Hsort. cbn [bind]. apply structureLoop_succeeds.
    apply (Permutation_Forall (sort_permutation _ _ _ Hsort)). exact Hall.
Qed.

Lemma structureTraverse_lists
      n dir prefix fullPath name linePrefix size mtime text :
  fileAt rootPath n dir prefix fullPath name linePrefix size mtime text ->
  isBinaryPath fullPath = false ->
  forall lines,
    structureTraverse localeCompare rootPath n dir prefix [] = Ok lines ->
    In (linePrefix ++ fileMarker ++ name) lines.
Proof.
  intros Hat. induction Hat
    as [listing dir prefix item size mtime text Hin Hquick Hpattern
       | listing dir prefix item sub fullPath name linePrefix size mtime text
                 Hin Hquick Hpattern Hat IH];
    intros Hbinary lines Hlines;
    destruct (structureTraverse_blocks _ _ _ _ _ _ _ Hlines)
      as (sorted & blocks & _ & Hperm & Hblocks & ->);
    simpl.
  - assert (Hchild : In (item, File size mtime text)
                        (filter (listed rootPath dir) listing)).
    { apply filter_In. split; [exact Hin|]. unfold listed. simpl.
      now rewrite Hquick, Hpattern, Hbinary. }
    apply (Permutation_in _ (Permutation_sym Hperm)) in Hchild.
    destruct (Forall2_In_l _ _ _ _ Hblocks Hchild)
      as (block & Hblock & below & -> & _).
    apply in_concat. eexists. split; [exact Hblock|]. now left.
  - assert (Hdir := fileAt_directory _ _ _ _ _ _ _ _ _ _ Hat).
    assert (Hchild : In (item, sub) (filter (listed rootPath dir) listing)).
    { apply filter_In. split; [exact Hin|]. unfold listed. simpl.
      now rewrite Hquick, Hpattern, Hdir. }
    apply (Permutation_in _ (Permutation_sym Hperm)) in Hchild.
    destruct (Forall2_In_l _ _ _ _ Hblocks Hchild)
      as (block & Hblock & below & -> & Hbelow).
    simpl in Hbelow. rewrite Hdir in Hbelow.
    apply in_concat. eexists. split; [exact Hblock|]. right.
    now apply IH.
Qed.

End ThresholdFacts.

(** ** Every record is the record of a file of the tree *)

Section RecordFacts.

Variable rootPath : string.
Variable token : CancellationToken.

Lemma scanFile_recorded listing dir item fileSize mtime text st :
  In (item, File fileSize mtime text) listing ->
  isQuickIgnored item = false ->
  isPatternIgnored (Path.relative rootPath (Path.join dir item)) = false ->
  exists more,
    files (scanFile (File fileSize mtime text) (Path.join dir item)
                    (Path.relative rootPath (Path.join dir item))
                    {| isDirectory := false; statSize := fileSize;
                       statMtime := mtime |} st)
    = (files st ++ more)%list /\
    Forall (recorded rootPath (Directory (Some listing)) dir) more.
Proof.
  intros Hin Hquick Hpattern. unfold scanFile. cbn [statSize statMtime readFile].
  destruct (N.ltb_spec maxFileSizeBytes fileSize) as [_ | Hsize].
  { exists []. simpl. now rewrite app_nil_r. }
  destruct (isBinaryPath (Path.join dir item)) eqn:Hbinary; cbn [negb].
  { exists []. now rewrite app_nil_r. }
  destruct text as [text|].
  - eexists. split; [reflexivity|]. constructor; [|constructor].
    exists EmptyString, (Path.join dir item), item, EmptyString,
           fileSize, mtime, text.
    repeat split; auto. now constructor.
  - exists []. simpl. now rewrite app_nil_r.
Qed.

Lemma recorded_below listing dir item sub f :
  In (item, sub) listing ->
  isQuickIgnored item = false ->
  isPatternIgnored (Path.relative rootPath (Path.join dir item)) = false ->
  recorded rootPath sub (Path.join dir item) f ->
  recorded rootPath (Directory (Some listing)) dir f.
Proof.
  intros Hin Hquick Hpattern
         (prefix & fullPath & name & linePrefix & fileSize & mtime & text
          & Hat & -> & Hbinary & Hsize).
  assert (Hany : forall p, exists q,
             fileAt rootPath sub (Path.join dir item) p fullPath name q
                    fileSize mtime (Some text)).
  { clear - Hat. induction Hat; intros p.
    - eexists. now constructor.
    - destruct (IHHat (p ++ "  ")) as [q Hq]. exists q.
      eapply fileAt_below; eauto. }
  destruct (Hany (EmptyString ++ "  ")) as [q Hq].
  exists EmptyString, fullPath, name, q, fileSize, mtime, text.
  repeat split; auto. eapply fileAt_below; eauto.
Qed.

Lemma traverseLoop_recorded recurse dir listing :
  Forall (fun e => forall d st, exists more,
              files (recurse (snd e) d st) = (files st ++ more)%list /\
              Forall (recorded rootPath (snd e) d) more) listing ->
  forall items st,
    incl items listing ->
    exists more,
      files (traverseLoop rootPath token recurse dir items st)
      = (files st ++ more)%list /\
      Forall (recorded rootPath (Directory (Some listing)) dir) more.
Proof.
  intros Hrec.
  assert (Hnone : forall st : scan, exists more,
             files st = (files st ++ more)%list /\
             Forall (recorded rootPath (Directory (Some listing)) dir) more).
  { intros st. exists []. now rewrite app_nil_r. }
  induction items as [|[item child] rest IH]; intros st Hincl; [apply Hnone|].
  assert (Hin : In (item, child) listing) by (apply Hincl; now left).
  assert (Hrest : incl rest listing).
  { intros e He. apply Hincl. now right. }
  specialize (fun st => IH st Hrest). simpl.
  destruct (isCancellationRequested token (ticks st)); [apply Hnone|].
  destruct (isQuickIgnored item) eqn:Hquick; [apply IH|].
  destruct (isPatternIgnored _) eqn:Hpattern; [apply IH|].
  destruct (stat child) as [s|] eqn:Hstat; [|apply (Hnone (emit _ (tick st)))].
  set (st' := reportScanning _ _).
  assert (Hst' : files st' = files st) by reflexivity.
  destruct (isDirectory s) eqn:Hdir.
  - rewrite Forall_forall in Hrec.
    destruct (Hrec _ Hin (Path.join dir item) st') as (m1 & E1 & H1).
    destruct (IH (recurse child (Path.join dir item) st')) as (m2 & E2 & H2).
    exists (m1 ++ m2)%list. cbn [snd] in E1. rewrite E2, E1, Hst', app_assoc.
    split; [reflexivity|]. apply Forall_app. split; [|exact H2].
    eapply Forall_impl; [|exact H1]. intros f. now apply recorded_below.
  - destruct child as [fileSize mtime text | ? | ]; simpl in Hstat;
      [ | injection Hstat as <-; discriminate Hdir | discriminate Hstat ].
    injection Hstat as <-.
    destruct (scanFile_recorded listing dir item fileSize mtime text st'
                Hin Hquick Hpattern) as (m1 & E1 & H1).
    destruct (IH (scanFile (File fileSize mtime text) (Path.join dir item)
                           (Path.relative rootPath (Path.join dir item))
                           {| isDirectory := false; statSize := fileSize;
                              statMtime := mtime |} st'))
      as (m2 & E2 & H2).
    exists (m1 ++ m2)%list. rewrite E2, E1, Hst', app_assoc.
    split; [reflexivity|]. apply Forall_app. auto.
Qed.

Lemma traverse_recorded (n : node) :
  forall dir st, exists more,
    files (traverse rootPath token n dir st) = (files st ++ more)%list /\
    Forall (recorded rootPath n dir) more.
Proof.
  induction n as [fileSize mtime text | | listing IH | ] using node_induction;
    intros dir st; simpl;
    try (exists []; rewrite app_nil_r; split; [reflexivity | constructor]).
  destruct (traverseLoop_recorded (traverse rootPath token) dir listing IH
              listing (tick st) (incl_refl _)) as (more & E & H).
  exists more. split; [exact E | exact H].
Qed.

End RecordFacts.

(** ** A path names one file *)

Lemma append_inj_l (a b c : string) : a ++ b = a ++ c -> b = c.
Proof.
  induction a as [|x a IH]; simpl; intros H; [exact H|].
  injection H as H. now apply IH.
Qed.

Lemma join_inj (dir a b : string) : Path.join dir a = Path.join dir b -> a = b.
Proof.
  unfold Path.join. intros H. apply append_inj_l in H. now injection H.
Qed.

Lemma join_assoc (dir item tail : string) :
  Path.join (Path.join dir item) tail = Path.join dir (Path.join item tail).
Proof. unfold Path.join. now rewrite StrFacts.append_assoc. Qed.

(** A name without a separator is the part of a path before its first
    separator, and is not a path with a separator. *)
Lemma first_component_unique (a b x y : string) :
  Str.contains Str.slash a = false ->
  Str.contains Str.slash b = false ->
  Path.join a x = Path.join b y -> a = b.
Proof.
  unfold Path.join. revert b.
  induction a as [|c a IH]; intros [|d b] Ha Hb H; try reflexivity.
  - exfalso. injection H as Hd _.
    cbn [Str.contains] in Hb. rewrite <- Hd, Ascii.eqb_refl in Hb.
    discriminate Hb.
  - exfalso. injection H as Hc _.
    cbn [Str.contains] in Ha. rewrite Hc, Ascii.eqb_refl in Ha.
    discriminate Ha.
  - injection H as <- H.
    cbn [Str.contains] in Ha, Hb.
    apply orb_false_iff in Ha as [_ Ha]. apply orb_false_iff in Hb as [_ Hb].
    f_equal. now apply IH.
Qed.

Lemma name_is_no_path (a b y : string) :
  Str.contains Str.slash a = false -> a <> Path.join b y.
Proof.
  intros Ha ->. unfold Path.join in Ha.
  rewrite PathFacts.contains_append in Ha. cbn [Str.contains] in Ha.
  rewrite Ascii.eqb_refl in Ha. cbn [orb] in Ha.
  now rewrite orb_true_r in Ha.
Qed.

Lemma listing_unique {V : Type} (l : list (string * V)) k v1 v2 :
  NoDup (map fst l) -> In (k, v1) l -> In (k, v2) l -> v1 = v2.
Proof.
  induction l as [|[k' v'] l IH]; simpl; [contradiction|].
  intros Hnd H1 H2. inversion Hnd as [|? ? Hnotin Hnd']; subst.
  destruct H1 as [E1 | H1], H2 as [E2 | H2].
  - congruence.
  - injection E1 as -> ->. exfalso. apply Hnotin.
    apply (in_map fst) in H2. exact H2.
  - injection E2 as -> ->. exfalso. apply Hnotin.
    apply (in_map fst) in H1. exact H1.
  - now apply IH.
Qed.

Lemma wellNamed_child listing item sub :
  wellNamed (Directory (Some listing)) = true ->
  In (item, sub) listing ->
  Str.contains Str.slash item = false /\ wellNamed sub = true.
Proof.
  simpl. rewrite forallb_forall. intros H Hin.
  specialize (H _ Hin). simpl in H. apply andb_true_iff in H as [H1 H2].
  now apply negb_true_iff in H1.
Qed.

Lemma distinctNames_child listing item sub :
  distinctNames (Directory (Some listing)) ->
  In (item, sub) listing ->
  NoDup (map fst listing) /\ distinctNames sub.
Proof.
  simpl. intros [Hnd Hall] Hin. split; [exact Hnd|]. clear Hnd.
  induction listing as [|e listing IH]; [contradiction|].
  simpl in Hall. destruct Hall as [He Hall]. destruct Hin as [-> | Hin]; auto.
Qed.

Lemma fileAt_path rootPath n dir prefix fullPath name linePrefix fileSize mtime text :
  fileAt rootPath n dir prefix fullPath name linePrefix fileSize mtime text ->
  exists tail, fullPath = Path.join dir tail.
Proof.
  induction 1 as [| ? ? ? item ? ? ? ? ? ? ? _ _ _ _ [tail ->]].
  - eauto.
  - exists (Path.join item tail). apply join_assoc.
Qed.

Lemma fileAt_cases rootPath listing dir prefix fullPath name linePrefix
      fileSize mtime text :
  fileAt rootPath (Directory (Some listing)) dir prefix fullPath name linePrefix
         fileSize mtime text ->
  (exists item,
      In (item, File fileSize mtime text) listing /\
      fullPath = Path.join dir item) \/
  (exists item sub,
      In (item, sub) listing /\
      fileAt rootPath sub (Path.join dir item) (prefix ++ "  ")
             fullPath name linePrefix fileSize mtime text).
Proof.
  inversion 1; subst; [left | right]; eauto.
Qed.

Lemma fileAt_unique rootPath n dir prefix fullPath name linePrefix fileSize mtime text :
  fileAt rootPath n dir prefix fullPath name linePrefix fileSize mtime text ->
  forall prefix' name' linePrefix' fileSize' mtime' text',
    fileAt rootPath n dir prefix' fullPath name' linePrefix' fileSize' mtime' text' ->
    wellNamed n = true -> distinctNames n ->
    fileSize = fileSize'.
Proof.
  induction 1
    as [listing dir prefix item fileSize mtime text Hin _ _
       | listing dir prefix item sub fullPath name linePrefix fileSize mtime text
                 Hin _ _ Hat IH];
    intros prefix' name' linePrefix' fileSize' mtime' text' Hat' Hnamed Hdistinct;
    destruct (wellNamed_child _ _ _ Hnamed Hin) as [Hplain Hnamed1];
    destruct (distinctNames_child _ _ _ Hdistinct Hin) as [Hnd Hdistinct1];
    destruct (fileAt_cases _ _ _ _ _ _ _ _ _ _ Hat')
      as [(item' & Hin' & E') | (item' & sub' & Hin' & Hsub')].
  - apply join_inj in E'. subst item'.
    assert (E := listing_unique _ _ _ _ Hnd Hin Hin'). now injection E.
  - destruct (fileAt_path _ _ _ _ _ _ _ _ _ _ Hsub') as [tail E].
    rewrite join_assoc in E. apply join_inj in E.
    now apply name_is_no_path in E.
  - destruct (fileAt_path _ _ _ _ _ _ _ _ _ _ Hat) as [tail E].
    rewrite E', join_assoc in E. apply join_inj in E.
    destruct (wellNamed_child _ _ _ Hnamed Hin') as [Hplain' _].
    now apply name_is_no_path in E.
  - destruct (fileAt_path _ _ _ _ _ _ _ _ _ _ Hat) as [tail E].
    destruct (fileAt_path _ _ _ _ _ _ _ _ _ _ Hsub') as [tail' E'].
    destruct (wellNamed_child _ _ _ Hnamed Hin') as [Hplain' _].
    assert (Eitem : item = item').
    { rewrite E' in E. rewrite !join_assoc in E. apply join_inj in E.
      symmetry. now apply (first_component_unique _ _ _ _ Hplain' Hplain E). }
    subst item'.
    assert (Esub := listing_unique _ _ _ _ Hnd Hin Hin'). subst sub'.
    eapply IH; eauto.
Qed.

(** C7: on a readable tree whose directories list plain, distinct names, and
    without cancellation, take a file that no filter ignores, that is not
    binary and whose text can be read.  When its size is at most the
    threshold, so also at exactly 1 MiB, its record is among the collected
    files.  When its size is over the threshold, so also at one byte more,
    no collected record has its path, the scan logs that it skips the file,
    and the structure listing still has the line of the file. *)
Theorem C7_threshold_inclusive_and_structure_unbounded :
  forall (localeCompare : string -> string -> Z) (rootPath : string)
         (tree : node) (now : nat) (tr : list effect)
         (fullPath name linePrefix : string) (fileSize : N) (mtime : Z)
         (text : string),
    readable tree = true ->
    wellNamed tree = true ->
    distinctNames tree ->
    fileAt rootPath tree rootPath EmptyString
           fullPath name linePrefix fileSize mtime (Some text) ->
    isBinaryPath fullPath = false ->
    ((fileSize <= 1024 * 1024)%N ->
     In (recordOf rootPath fullPath fileSize mtime text)
        (collectFiles rootPath None tree now tr)) /\
    ((1024 * 1024 < fileSize)%N ->
     (forall f, In f (collectFiles rootPath None tree now tr) ->
                path f <> Path.relative rootPath fullPath) /\
     In (ConsoleWarn ("Skipping large file: " ++ Path.relative rootPath fullPath)
                     None)
        (trace (collectFilesRun rootPath None tree now tr)) /\
     exists lines,
       getProjectStructure localeCompare rootPath tree =
         Ok (Str.join Str.nl lines) /\
       In (linePrefix ++ fileMarker ++ name) lines).
Proof.
  intros localeCompare rootPath tree now tr fullPath name linePrefix
         fileSize mtime text Hreadable Hnamed Hdistinct Hat Hbinary.
  split.
  - intros Hsize. unfold collectFiles, collectFilesRun.
    apply (traverse_reaches rootPath (fun st => In _ (files st)))
      with (2 := Hat); auto.
    + intros st st'. apply files_monotone.
    + intros st. unfold scanFile. cbn [statSize statMtime readFile].
      destruct (N.ltb_spec maxFileSizeBytes fileSize) as [Hlt | _].
      { unfold maxFileSizeBytes in Hlt. lia. }
      rewrite Hbinary. simpl. apply in_or_app. right. now left.
  - intros Hsize. split; [|split].
    + intros f Hin Hpath.
      unfold collectFiles, collectFilesRun in Hin.
      destruct (countFiles_counted None tree rootPath (initialScan now tr))
        as (Hfiles & _).
      destruct (traverse_recorded rootPath None tree rootPath
                  (countFiles None tree rootPath (initialScan now tr)))
        as (more & E & Hrecorded).
      rewrite E, Hfiles in Hin. simpl in Hin.
      rewrite Forall_forall in Hrecorded.
      destruct (Hrecorded f Hin)
        as (prefix' & fullPath' & name' & linePrefix' & fileSize' & mtime'
            & text' & Hat' & -> & _ & Hsize').
      simpl in Hpath.
      destruct (fileAt_path _ _ _ _ _ _ _ _ _ _ Hat) as [tail Etail].
      destruct (fileAt_path _ _ _ _ _ _ _ _ _ _ Hat') as [tail' Etail'].
      rewrite Etail, Etail', !PathFacts.relative_join in Hpath.
      subst tail' fullPath'. rewrite <- Etail in Hat'.
      assert (Esize := fileAt_unique _ _ _ _ _ _ _ _ _ _ Hat
                         _ _ _ _ _ _ Hat' Hnamed Hdistinct).
      unfold maxFileSizeBytes in Hsize'. lia.
    + unfold collectFilesRun.
      apply (traverse_reaches rootPath (fun st => In _ (trace st)))
        with (2 := Hat); auto.
      * intros st st'. apply trace_monotone.
      * intros st. unfold scanFile. cbn [statSize].
        destruct (N.ltb_spec maxFileSizeBytes fileSize) as [_ | Hle].
        -- simpl. apply in_or_app. right. now left.
        -- unfold maxFileSizeBytes in Hle. lia.
    + unfold getProjectStructure.
      destruct (structureTraverse_succeeds rootPath localeCompare tree Hreadable
                  (fileAt_directory _ _ _ _ _ _ _ _ _ _ Hat)
                  rootPath EmptyString [])
        as [lines Hlines].
      exists lines. rewrite Hlines. split; [reflexivity|].
      exact (structureTraverse_lists rootPath localeCompare _ _ _ _ _ _ _ _ _
               Hat Hbinary lines Hlines).
Qed.

Lemma C7_threshold_inclusive_and_structure_unbounded_witness :
  In (recordOf "/work" "/work/src/exact.ts" 1048576 1700000000000 "let e = 0;")
     (collectFiles "/work" None Samples.sized 0 []) /\
  (forall f, In f (collectFiles "/work" None Samples.sized 0 []) ->
             path f <> Path.relative "/work" "/work/src/over.ts") /\
  In (ConsoleWarn ("Skipping large file: "
                   ++ Path.relative "/work" "/work/src/over.ts") None)
     (trace (collectFilesRun "/work" None Samples.sized 0 [])) /\
  exists lines,
    getProjectStructure Samples.byCode "/work" Samples.sized =
      Ok (Str.join Str.nl lines) /\
    In ("  " ++ fileMarker ++ "over.ts") lines.
Proof.
  assert (Hsrc : forall name fileSize text,
             In (name, File fileSize 1700000000000 (Some text))
                [ ("exact.ts", File 1048576 1700000000000 (Some "let e = 0;"));
                  ("over.ts", File 1048577 1700000000000 (Some "let o = 0;")) ] ->
             isQuickIgnored name = false ->
             isPatternIgnored (Path.relative "/work"
                                 (Path.join (Path.join "/work" "src") name)) = false ->
             fileAt "/work" Samples.sized "/work" EmptyString
                    (Path.join (Path.join "/work" "src") name) name "  "
                    fileSize 1700000000000 (Some text)).
  { intros name fileSize text Hin Hquick Hpattern.
    apply fileAt_below with (item := "src") (sub := Directory (Some
           [ ("exact.ts", File 1048576 1700000000000 (Some "let e = 0;"));
             ("over.ts", File 1048577 1700000000000 (Some "let o = 0;")) ]));
      [left; reflexivity | reflexivity | reflexivity |].
    now apply (fileAt_here "/work" _ (Path.join "/work" "src") "  "). }
  assert (Hexact : fileAt "/work" Samples.sized "/work" EmptyString
                          "/work/src/exact.ts" "exact.ts" "  "
                          1048576 1700000000000 (Some "let e = 0;")).
  { apply (Hsrc "exact.ts"); [left; reflexivity | reflexivity | reflexivity]. }
  assert (Hover : fileAt "/work" Samples.sized "/work" EmptyString
                         "/work/src/over.ts" "over.ts" "  "
                         1048577 1700000000000 (Some "let o = 0;")).
  { apply (Hsrc "over.ts"); [right; left; reflexivity | reflexivity | reflexivity]. }
  assert (Hreadable : readable Samples.sized = true) by reflexivity.
  assert (Hnamed : wellNamed Samples.sized = true) by reflexivity.
  assert (Hdistinct : distinctNames Samples.sized).
  { simpl. repeat split; repeat constructor; simpl; intuition discriminate. }
  assert (Hbin1 : isBinaryPath "/work/src/exact.ts" = false) by reflexivity.
  assert (Hbin2 : isBinaryPath "/work/src/over.ts" = false) by reflexivity.
  assert (Hle : (1048576 <= 1024 * 1024)%N) by (vm_compute; discriminate).
  assert (Hlt : (1024 * 1024 < 1048577)%N) by reflexivity.
  split.
  - exact (proj1 (C7_threshold_inclusive_and_structure_unbounded
                    Samples.byCode "/work" Samples.sized 0 []
                    "/work/src/exact.ts" "exact.ts" "  " 1048576 1700000000000
                    "let e = 0;" Hreadable Hnamed Hdistinct Hexact Hbin1) Hle).
  - exact (proj2 (C7_threshold_inclusive_and_structure_unbounded
                    Samples.byCode "/work" Samples.sized 0 []
                    "/work/src/over.ts" "over.ts" "  " 1048577 1700000000000
                    "let o = 0;" Hreadable Hnamed Hdistinct Hover Hbin2) Hlt).
Defined.

(** ** Failures of single entries *)

(** C4 fails for the structure-building traversal: with a directory that
    cannot be listed, the scanning pass warns and returns the two sources
    around it, and the structure pass throws, which ends the export with an
    error message and without a written document.  In the scanning pass a
    failing [stat] ends the loop of its directory, so the source listed
    after a dangling link is not collected. *)
Theorem C4_structure_pass_aborts_on_unreadable_directory :
  map path (collectFiles "/work" None Samples.locked 0 []) = ["a.ts"; "b.ts"] /\
  getProjectStructure Samples.byCode "/work" Samples.locked =
    Throw (ReaddirError "/work/secret") /\
  snd (exportProject Samples.byCode (Samples.exportOf Samples.locked)) =
    Throw (ReaddirError "/work/secret") /\
  last (fst (exportProject Samples.byCode (Samples.exportOf Samples.locked)))
       firstReport =
    ShowErrorMessage "Export failed: " (ReaddirError "/work/secret") /\
  (forall p d,
      ~ In (WriteFile p d)
           (fst (exportProject Samples.byCode (Samples.exportOf Samples.locked)))) /\
  collectFiles "/work" None Samples.dangling 0 [] = [].
Proof.
  repeat split; try reflexivity.
  intros p d. vm_compute. intuition discriminate.
Qed.

(** ** Rendering *)

(** C3 (as amended): two calls of [formatOutput] on the same records, the
    same structure text and the same format return the same document when
    the format is Markdown or Text, and for JSON when they read the same
    time from the clock, which the JSON document carries as [exportDate]. *)
Theorem C3_rendering_fixed_by_inputs_and_clock :
  forall (now1 now2 : Z) (files : list FileData) (structure : string)
         (format : ExportFormat),
    (format = JSON -> now1 = now2) ->
    formatOutput now1 files structure format =
    formatOutput now2 files structure format.
Proof.
  intros now1 now2 files structure format H.
  destruct format; try reflexivity.
  now rewrite (H eq_refl).
Qed.

Lemma C3_rendering_fixed_by_inputs_and_clock_witness :
  formatOutput 0 [Samples.a_ts] "src" Markdown =
  formatOutput 1000 [Samples.a_ts] "src" Markdown.
Proof.
  apply (C3_rendering_fixed_by_inputs_and_clock 0 1000 [Samples.a_ts] "src" Markdown).
  intros H. discriminate H.
Defined.

(** C3 (as stated) fails for JSON: the same inputs rendered one second apart
    give two different documents. *)
Lemma C3_json_rendering_counterexample :
  formatOutput 0 [Samples.a_ts] "src" JSON <>
  formatOutput 1000 [Samples.a_ts] "src" JSON.
Proof. vm_compute. intros H. discriminate H. Qed.

(** ** Quick export *)

(** C8: for a document at [/p/f.go] and a selection that is not empty and
    holds the text [x], quick export in Text format puts on the clipboard
    the text [FILE: /p/f.go], two line feeds and [x], and nothing else. *)
Theorem C8_quick_export_text :
  forall editor : TextEditor,
    fileName (document editor) = "/p/f.go" ->
    isEmpty (selection editor) = false ->
    getTextIn (document editor) (selection editor) = "x" ->
    quickExport (Some editor) (Some QuickText) =
      ([ClipboardWriteText ("FILE: /p/f.go" ++ Str.nl ++ Str.nl ++ "x");
        ShowInformationMessage "Quick export (Text) copied to clipboard!"],
       Ok tt).
Proof.
  intros editor Hname Hsel Htext.
  unfold quickExport, quickExportOutput. now rewrite Hsel, Htext, Hname.
Qed.

Lemma C8_quick_export_text_witness :
  quickExport (Some Samples.f_go) (Some QuickText) =
    ([ClipboardWriteText ("FILE: /p/f.go" ++ Str.nl ++ Str.nl ++ "x");
      ShowInformationMessage "Quick export (Text) copied to clipboard!"],
     Ok tt).
Proof.
  apply (C8_quick_export_text Samples.f_go); reflexivity.
Defined.

(** ** PathFilter: what the binary test and the language lookup look at *)

Lemma toLowerCase_split (p a b : string) :
  Str.toLowerCase p = a ++ b ->
  exists p1 p2, p = p1 ++ p2 /\ Str.toLowerCase p1 = a /\ Str.toLowerCase p2 = b.
Proof.
  revert p. induction a as [|x a IH]; intros p H.
  - exists EmptyString, p. auto.
  - destruct p as [|c p]; [discriminate|]. simpl in H. injection H as Hx H.
    destruct (IH p H) as (p1 & p2 & -> & H1 & H2).
    exists (String c p1), p2. simpl. now rewrite Hx, H1.
Qed.

(** [isBinaryPath] looks at the end of the whole path, in any letter case:
    a path is binary exactly when it ends in a text that, in lower case, is
    one of the binary extensions. *)
Theorem isBinaryPath_iff_suffix :
  forall filePath : string,
    isBinaryPath filePath = true <->
    exists before suffix,
      filePath = before ++ suffix /\
      In (Str.toLowerCase suffix) binaryExtensions.
Proof.
  intros filePath. unfold isBinaryPath. rewrite existsb_exists. split.
  - intros (ext & Hin & Hends).
    apply StrFacts.endsWith_split in Hends as [before E].
    apply toLowerCase_split in E as (p1 & p2 & -> & _ & <-).
    now exists p1, p2.
  - intros (before & suffix & -> & Hin).
    exists (Str.toLowerCase suffix). split; [exact Hin|].
    rewrite StrFacts.toLowerCase_append.
    apply StrFacts.endsWith_append, StrFacts.endsWith_refl.
Qed.

Lemma lowerChar_keeps_dot (c : ascii) :
  Ascii.eqb Str.dot (Str.lowerChar c) = Ascii.eqb Str.dot c.
Proof. destruct c as [[] [] [] [] [] [] [] []]; reflexivity. Qed.

Lemma lowerChar_keeps_slash (c : ascii) :
  Ascii.eqb Str.slash (Str.lowerChar c) = Ascii.eqb Str.slash c.
Proof. destruct c as [[] [] [] [] [] [] [] []]; reflexivity. Qed.

Lemma toLowerCase_keeps_dots (s : string) :
  Str.contains Str.dot (Str.toLowerCase s) = Str.contains Str.dot s.
Proof.
  induction s as [|c s IH]; [reflexivity|].
  cbn [Str.toLowerCase Str.contains]. now rewrite lowerChar_keeps_dot, IH.
Qed.

Lemma toLowerCase_keeps_slashes (s : string) :
  Str.contains Str.slash (Str.toLowerCase s) = Str.contains Str.slash s.
Proof.
  induction s as [|c s IH]; [reflexivity|].
  cbn [Str.toLowerCase Str.contains]. now rewrite lowerChar_keeps_slash, IH.
Qed.

Lemma length_append (a b : string) :
  String.length (a ++ b) = String.length a + String.length b.
Proof. induction a as [|x a IH]; simpl; [reflexivity | now rewrite IH]. Qed.

Lemma fromLastDot_none (s : string) :
  Str.contains Str.dot s = false -> Path.fromLastDot s = None.
Proof.
  induction s as [|c s IH]; [reflexivity|].
  cbn [Str.contains Path.fromLastDot]. intros H.
  apply orb_false_iff in H as [Hc Hs]. rewrite (IH Hs).
  now rewrite Ascii.eqb_sym, Hc.
Qed.

Lemma fromLastDot_append (stem e x : string) :
  Path.fromLastDot e = Some x -> Path.fromLastDot (stem ++ e) = Some x.
Proof.
  intros H. induction stem as [|c stem IH]; [exact H|].
  cbn [append Path.fromLastDot]. now rewrite IH.
Qed.

(** Every key of the language table is a dot followed by a text that is not
    empty and holds neither a dot nor a separator, and is found with its own
    tag. *)
Lemma languageMap_keys (ext tag : string) :
  In (ext, tag) languageMap ->
  lookupLanguage ext = Some tag /\
  exists r, ext = String Str.dot r /\ r <> EmptyString /\
            Str.contains Str.dot r = false /\
            Str.contains Str.slash r = false.
Proof.
  unfold languageMap. simpl.
  intros H.
  repeat (destruct H as [H | H];
          [injection H as <- <-; split;
           [reflexivity | eexists; repeat split; [discriminate | ..]; reflexivity]
          |]).
  contradiction.
Qed.

(** [getLanguageId] goes by the extension of the last component, in any
    letter case: a name made of a stem and an extension of the table, in a
    directory, has the tag of that extension. *)
Theorem getLanguageId_of_known_extension :
  forall (dir stem e ext tag : string),
    In (ext, tag) languageMap ->
    Str.toLowerCase e = ext ->
    stem <> EmptyString ->
    Str.contains Str.slash stem = false ->
    getLanguageId (Path.join dir (stem ++ e)) = tag.
Proof.
  intros dir stem e ext tag Hin Hlower Hstem Hplain.
  destruct (languageMap_keys _ _ Hin) as (Hfind & r & Hext & Hr & Hdot & Hslash).
  subst ext. destruct e as [|c e']; [discriminate|].
  simpl in Hext. injection Hext as Hc He'.
  assert (Ec : c = Str.dot).
  { symmetry. apply Ascii.eqb_eq. rewrite <- lowerChar_keeps_dot, Hc.
    apply Ascii.eqb_refl. }
  subst c.
  assert (Hdot' : Str.contains Str.dot e' = false)
    by now rewrite <- toLowerCase_keeps_dots, He'.
  assert (Hslash' : Str.contains Str.slash e' = false)
    by now rewrite <- toLowerCase_keeps_slashes, He'.
  assert (He'ne : e' <> EmptyString) by (intros ->; now apply Hr).
  unfold getLanguageId, Path.extname.
  rewrite PathFacts.lastComponent_join.
  2:{ rewrite PathFacts.contains_append, Hplain. cbn [Str.contains orb].
      now rewrite Hslash'. }
  rewrite (fromLastDot_append stem _ (String Str.dot e')).
  2:{ cbn [Path.fromLastDot]. rewrite (fromLastDot_none _ Hdot').
      now rewrite Ascii.eqb_refl. }
  assert (Hlen : (String.length (String Str.dot e')
                  =? String.length (stem ++ String Str.dot e'))%nat = false).
  { apply Nat.eqb_neq. rewrite length_append.
    destruct stem; [contradiction | simpl; lia]. }
  rewrite Hlen.
  assert (Hdots : String.eqb (stem ++ String Str.dot e') ".." = false).
  { apply String.eqb_neq. intros E. apply (f_equal String.length) in E.
    rewrite length_append in E.
    destruct stem; [contradiction|]. destruct e'; [contradiction|].
    simpl in E. lia. }
  rewrite Hdots.
  now rewrite Hfind.
Qed.

Lemma getLanguageId_of_known_extension_witness :
  getLanguageId (Path.join "/work/src" ("Main" ++ ".TS")) = "typescript".
Proof.
  apply (getLanguageId_of_known_extension "/work/src" "Main" ".TS" ".ts");
    [ unfold languageMap; simpl; tauto | reflexivity | discriminate | reflexivity ].
Defined.

(** ** What the configured patterns ignore *)

Module PatternFacts.
Import RegExp.

Lemma matches_star_split (a : atom) (r : regex) (m : string) :
  matches (Star a :: r) m ->
  exists x m', m = x ++ m' /\ matches r m'.
Proof.
  intros H. remember (Star a :: r) as sr eqn:E.
  induction H as [ | ? ? ? ? _ _ _ | a' r' s Hs _ | a' c r' s _ _ IH];
    try discriminate.
  - injection E as -> ->. now exists EmptyString, s.
  - destruct (IH E) as (x & m' & -> & Hm). now exists (String c x), m'.
Qed.

Lemma matches_literal (L : string) (r : regex) (m : string) :
  matches (literal L ++ r)%list m <-> exists m', m = L ++ m' /\ matches r m'.
Proof.
  revert m. induction L as [|c L IH]; intros m; simpl.
  - split; [intros H; now exists m | now intros (m' & -> & H)].
  - split.
    + intros H. inversion H as [ | ? d ? s Hd Hs | | ]; subst.
      simpl in Hd. apply Ascii.eqb_eq in Hd. subst d.
      apply IH in Hs as (m' & -> & Hm). now exists m'.
    + intros (m' & -> & Hm). constructor; [apply Ascii.eqb_refl|].
      apply IH. now exists m'.
Qed.



End PatternFacts.




Lemma plainDirectories_parse (name : string) :
  In name plainDirectories ->
  In ("**/" ++ name ++ "/**") defaultIgnore /\
  RegExp.parse (replaceDoubleStar ("**/" ++ name ++ "/**")) =
    Some (RegExp.Star RegExp.Dot
            :: literal ("/" ++ name ++ "/") ++ [RegExp.Star RegExp.Dot])%list.
Proof.
  unfold plainDirectories. simpl. intros H.
  repeat (destruct H as [<- | H];
          [split; [unfold defaultIgnore; simpl; tauto | reflexivity]|]).
  contradiction.
Qed.

(** The pattern of a directory without a dot in its name ignores exactly
    the paths that hold the name between two separators; a path that begins
    with the name is not among them unless the name comes again inside. *)
Theorem directory_pattern_ignores_inner_occurrences :
  forall (name relativePath : string),
    In name plainDirectories ->
    (patternTest ("**/" ++ name ++ "/**") relativePath = true <->
     exists before after,
       relativePath = before ++ ("/" ++ name ++ "/") ++ after).
Proof.
  intros name relativePath Hin.
  destruct (plainDirectories_parse name Hin) as [_ Hparse].
  unfold patternTest. rewrite Hparse, RegExpFacts.test_iff. split.
  - intros (b & m & a & -> & Hm).
    apply PatternFacts.matches_star_split in Hm as (x & m' & -> & Hm).
    apply PatternFacts.matches_literal in Hm as (m'' & -> & _).
    exists (b ++ x), (m'' ++ a).
    now rewrite !StrFacts.append_assoc.
  - intros (before & after & ->).
    exists before, ("/" ++ name ++ "/"), after. split; [reflexivity|].
    apply RegExp.matches_star_done. apply PatternFacts.matches_literal.
    exists EmptyString. split; [now rewrite StrFacts.append_nil_r|].
    apply RegExp.matches_star_done. constructor.
Qed.

Lemma directory_pattern_ignores_inner_occurrences_witness :
  patternTest ("**/" ++ "out" ++ "/**") "out/main.js" = true <->
  exists before after,
    "out/main.js" = before ++ ("/" ++ "out" ++ "/") ++ after.
Proof.
  apply (directory_pattern_ignores_inner_occurrences "out" "out/main.js").
  unfold plainDirectories. simpl. tauto.
Defined.

Lemma suffix_patterns_parse (w : string) :
  In w ["lock"; "log"; "map"] ->
  In ("**/*." ++ w) defaultIgnore /\
  RegExp.parse (replaceDoubleStar ("**/*." ++ w)) =
    Some (RegExp.Star RegExp.Dot :: RegExp.Star (RegExp.Lit Str.slash)
            :: RegExp.Once RegExp.Dot :: literal w ++ [])%list.
Proof.
  simpl. intros H.
  repeat (destruct H as [<- | H];
          [split; [unfold defaultIgnore; simpl; tauto | reflexivity]|]).
  contradiction.
Qed.

(** The patterns for lock, log and map files ignore every path in which a
    character other than a line terminator is followed by the word: neither
    a dot before the word nor the end of the path after it is required. *)
Theorem suffix_pattern_ignores_any_occurrence :
  forall (w relativePath : string),
    In w ["lock"; "log"; "map"] ->
    (patternTest ("**/*." ++ w) relativePath = true <->
     exists before c after,
       relativePath = before ++ String c (w ++ after) /\
       RegExp.isLineTerminator c = false).
Proof.
  intros w relativePath Hin.
  destruct (suffix_patterns_parse w Hin) as [_ Hparse].
  unfold patternTest. rewrite Hparse, RegExpFacts.test_iff. split.
  - intros (b & m & a & -> & Hm).
    apply PatternFacts.matches_star_split in Hm as (x & m1 & -> & Hm).
    apply PatternFacts.matches_star_split in Hm as (y & m2 & -> & Hm).
    inversion Hm as [ | ? c ? m3 Hc Hm3 | | ]; subst.
    apply PatternFacts.matches_literal in Hm3 as (m4 & -> & Hnil).
    inversion Hnil; subst.
    exists (b ++ x ++ y), c, a. split.
    + rewrite !StrFacts.append_assoc. simpl.
      now rewrite StrFacts.append_assoc.
    + simpl in Hc. now apply negb_true_iff in Hc.
  - intros (before & c & after & -> & Hc).
    exists before, (String c w), after. split.
    + simpl. reflexivity.
    + do 2 apply RegExp.matches_star_done.
      constructor; [simpl; now rewrite Hc|].
      apply PatternFacts.matches_literal. exists EmptyString.
      split; [now rewrite StrFacts.append_nil_r | constructor].
Qed.

Lemma suffix_pattern_ignores_any_occurrence_witness :
  patternTest ("**/*." ++ "log") "src/catalog.ts" = true <->
  exists before c after,
    "src/catalog.ts" = before ++ String c ("log" ++ after) /\
    RegExp.isLineTerminator c = false.
Proof.
  apply (suffix_pattern_ignores_any_occurrence "log" "src/catalog.ts").
  simpl. tauto.
Defined.

(** ** What the two passes compute when nothing fails and nobody cancels *)

Section PassFacts.

Variable rootPath : string.

Lemma traverseLoop_selected dir items :
  Forall (fun e => statable (snd e) = true ->
                   forall d st,
                     files (traverse rootPath None (snd e) d st)
                     = (files st ++ selectedFiles rootPath (snd e) d)%list) items ->
  forallb (fun e => statable (snd e)) items = true ->
  forall st,
    files (traverseLoop rootPath None (traverse rootPath None) dir items st)
    = (files st ++ selectedFiles rootPath (Directory (Some items)) dir)%list.
Proof.
  induction 1 as [|[item child] rest Hchild _ IH]; intros Hstat st.
  { simpl. now rewrite app_nil_r. }
  simpl in Hstat. apply andb_true_iff in Hstat as [Hhead Hrest].
  specialize (IH Hrest). cbn [selectedFiles flat_map fst snd] in IH |- *.
  cbn [traverseLoop isCancellationRequested].
  destruct (isQuickIgnored item); [apply IH|].
  destruct (isPatternIgnored (Path.relative rootPath (Path.join dir item)));
    [apply IH|].
  cbn [orb].
  destruct child as [fileSize mtime text | listing | ]; [ | | discriminate].
  - cbn [stat isDirectory isDirectoryNode]. rewrite IH.
    unfold scanFile. cbn [statSize statMtime readFile].
    rewrite N.leb_antisym.
    destruct text as [text|];
      destruct (maxFileSizeBytes <? fileSize)%N; cbn [negb andb];
      try reflexivity;
      destruct (isBinaryPath (Path.join dir item)); cbn [negb];
      try reflexivity.
    cbn [files pushFile emit tick reportScanning incrScannedFiles].
    unfold push, recordOf. now rewrite <- app_assoc.
  - cbn [stat isDirectory isDirectoryNode]. rewrite IH.
    cbn [snd] in Hchild. rewrite (Hchild Hhead).
    cbn [files reportScanning emit incrScannedFiles tick].
    now rewrite <- app_assoc.
Qed.

Lemma traverse_selected (n : node) :
  statable n = true ->
  forall dir st,
    files (traverse rootPath None n dir st)
    = (files st ++ selectedFiles rootPath n dir)%list.
Proof.
  induction n as [fileSize mtime text | | items IH | ] using node_induction;
    intros Hstat dir st;
    try (simpl; now rewrite app_nil_r).
  cbn [traverse]. rewrite (traverseLoop_selected dir items IH Hstat).
  reflexivity.
Qed.

Lemma list_sum_cons (x : nat) (l : list nat) :
  list_sum (x :: l) = x + list_sum l.
Proof. reflexivity. Qed.

Lemma countLoop_countable dir items :
  Forall (fun e => statable (snd e) = true ->
                   forall d st,
                     totalFiles (countFiles None (snd e) d st)
                     = totalFiles st + countable (snd e)) items ->
  forallb (fun e => statable (snd e)) items = true ->
  forall st,
    totalFiles (countLoop None (countFiles None) dir items st)
    = totalFiles st + countable (Directory (Some items)).
Proof.
  induction 1 as [|[item child] rest Hchild _ IH]; intros Hstat st.
  { simpl. lia. }
  simpl in Hstat. apply andb_true_iff in Hstat as [Hhead Hrest].
  specialize (IH Hrest). cbn [countable map fst snd] in IH |- *.
  rewrite list_sum_cons. cbn [countLoop isCancellationRequested].
  destruct (isQuickIgnored item); [rewrite IH; lia|].
  destruct child as [fileSize mtime text | listing | ]; [ | | discriminate].
  - cbn [stat isDirectory isDirectoryNode]. rewrite IH. simpl. lia.
  - cbn [stat isDirectory isDirectoryNode]. rewrite IH.
    cbn [snd] in Hchild. rewrite (Hchild Hhead). simpl. lia.
Qed.

Lemma countFiles_countable (n : node) :
  statable n = true ->
  forall dir st,
    totalFiles (countFiles None n dir st) = totalFiles st + countable n.
Proof.
  induction n as [fileSize mtime text | | items IH | ] using node_induction;
    intros Hstat dir st; try (simpl; lia).
  cbn [countFiles]. rewrite (countLoop_countable dir items IH Hstat).
  reflexivity.
Qed.

Lemma selected_at_most_countable (n : node) :
  forall dir, length (selectedFiles rootPath n dir) <= countable n.
Proof.
  induction n as [fileSize mtime text | | items IH | ] using node_induction;
    intros dir; try (simpl; lia).
  induction IH as [|[item child] rest Hchild _ IHrest]; [simpl; lia|].
  cbn [selectedFiles flat_map countable map fst snd] in *.
  rewrite list_sum_cons, length_app.
  destruct (isQuickIgnored item); cbn [orb length]; [lia|].
  destruct (isPatternIgnored _); cbn [length]; [lia|].
  destruct (isDirectoryNode child).
  - specialize (Hchild (Path.join dir item)). lia.
  - destruct child as [fileSize mtime [text|] | | ]; cbn [length]; try lia.
    destruct (_ && _); cbn [length]; lia.
Qed.

End PassFacts.

(** When [stat] fails nowhere and nobody cancels, [collectFiles] returns
    exactly the records of the files that pass the filters and can be read,
    in the order in which a depth-first walk in listing order meets them. *)
Theorem collectFiles_is_the_selected_files :
  forall (rootPath : string) (tree : node) (now : nat) (tr : list effect),
    statable tree = true ->
    collectFiles rootPath None tree now tr = selectedFiles rootPath tree rootPath.
Proof.
  intros rootPath tree now tr Hstat. unfold collectFiles, collectFilesRun.
  rewrite (traverse_selected rootPath tree Hstat).
  destruct (countFiles_counted None tree rootPath (initialScan now tr))
    as (-> & _).
  reflexivity.
Qed.

Lemma collectFiles_is_the_selected_files_witness :
  collectFiles "/work" None Samples.project 0 []
  = selectedFiles "/work" Samples.project "/work".
Proof.
  apply (collectFiles_is_the_selected_files "/work" Samples.project 0 []).
  reflexivity.
Defined.

(** When [stat] fails nowhere and nobody cancels, the counting pass leaves in
    [totalFiles] the number of files that are not below a quick-ignored name,
    whatever the patterns, the binary test and the size limit say of them;
    the files then collected are never more than that. *)
Theorem countFiles_counts_all_but_quick_ignored :
  forall (rootPath : string) (tree : node) (now : nat) (tr : list effect),
    statable tree = true ->
    totalFiles (countFiles None tree rootPath (initialScan now tr))
    = countable tree /\
    totalFiles (collectFilesRun rootPath None tree now tr) = countable tree /\
    length (collectFiles rootPath None tree now tr) <= countable tree.
Proof.
  intros rootPath tree now tr Hstat.
  assert (Hcount := countFiles_countable tree Hstat rootPath (initialScan now tr)).
  simpl in Hcount. split; [exact Hcount|]. split.
  - unfold collectFilesRun.
    destruct (traverse_extends rootPath None tree rootPath
                (countFiles None tree rootPath (initialScan now tr)))
      as (_ & _ & _ & ->).
    exact Hcount.
  - unfold collectFiles, collectFilesRun.
    rewrite (traverse_selected rootPath tree Hstat).
    destruct (countFiles_counted None tree rootPath (initialScan now tr))
      as (-> & _).
    apply selected_at_most_countable.
Qed.

Lemma countFiles_counts_all_but_quick_ignored_witness :
  totalFiles (countFiles None Samples.project "/work" (initialScan 0 []))
  = countable Samples.project /\
  totalFiles (collectFilesRun "/work" None Samples.project 0 [])
  = countable Samples.project /\
  length (collectFiles "/work" None Samples.project 0 [])
  <= countable Samples.project.
Proof.
  apply (countFiles_counts_all_but_quick_ignored "/work" Samples.project 0 []).
  reflexivity.
Defined.

(** ** Cancellation before the scan starts *)

(** When cancellation is already requested as [collectFiles] starts, each
    pass still reads the root directory once and returns at its first poll:
    no entry is examined, nothing is counted, read or reported, and the only
    effects are the warnings of a root that cannot be listed. *)
Theorem collectFiles_cancelled_before_start :
  forall (rootPath : string) (t : nat) (tree : node) (now : nat)
         (tr : list effect),
    t <= now ->
    let st := collectFilesRun rootPath (Some t) tree now tr in
    files st = [] /\ scannedFiles st = 0 /\ totalFiles st = 0 /\
    ticks st = now + 2 /\
    exists warnings,
      trace st = (tr ++ warnings)%list /\
      Forall (fun e => exists m, e = ConsoleWarn m (Some (ReaddirError rootPath)))
             warnings.
Proof.
  intros rootPath t tree now tr Hle. cbv zeta. unfold collectFilesRun.
  assert (H0 : isCancellationRequested (Some t) (ticks (initialScan now tr)) = true).
  { simpl. now apply Nat.leb_le. }
  assert (H1 : isCancellationRequested (Some t)
                 (ticks (tick (initialScan now tr))) = true).
  { apply (cancellation_stays (Some t) now); [exact H0 | simpl; lia]. }
  destruct tree as [fileSize mtime text | [items|] | ];
    cbn [countFiles traverse];
    rewrite ?(countLoop_cancelled (Some t) _ _ _ _ H1);
    try rewrite traverseLoop_cancelled
      by (apply (cancellation_stays (Some t) now); [exact H0 | simpl; lia]);
    simpl; repeat split; try lia;
    try (exists []; rewrite app_nil_r; split; [reflexivity | constructor]);
    (eexists; unfold push; rewrite <- app_assoc; split;
     [reflexivity | repeat constructor; eauto]).
Qed.

Lemma collectFiles_cancelled_before_start_witness :
  let st := collectFilesRun "/work" (Some 0) Samples.project 0 [] in
  files st = [] /\ scannedFiles st = 0 /\ totalFiles st = 0 /\
  ticks st = 0 + 2 /\
  exists warnings,
    trace st = ([] ++ warnings)%list /\
    Forall (fun e => exists m, e = ConsoleWarn m (Some (ReaddirError "/work")))
           warnings.
Proof.
  apply (collectFiles_cancelled_before_start "/work" 0 Samples.project 0 []).
  lia.
Defined.

(** ** The records and the structure listing agree with the tree *)

(** Whatever fails and whoever cancels, every record that [collectFiles]
    returns is the record of a file of the tree: it carries the relative
    path, the text, the size and the time of a file that is reached through
    directories that no filter ignores, that is not binary and not over the
    size limit. *)
Theorem collected_records_are_files_of_the_tree :
  forall (rootPath : string) (token : CancellationToken) (tree : node)
         (now : nat) (tr : list effect) (f : FileData),
    In f (collectFiles rootPath token tree now tr) ->
    exists prefix fullPath name linePrefix fileSize mtime text,
      fileAt rootPath tree rootPath prefix fullPath name linePrefix
             fileSize mtime (Some text) /\
      f = recordOf rootPath fullPath fileSize mtime text /\
      isBinaryPath fullPath = false /\
      (fileSize <= maxFileSizeBytes)%N.
Proof.
  intros rootPath token tree now tr f Hin.
  unfold collectFiles, collectFilesRun in Hin.
  destruct (countFiles_counted token tree rootPath (initialScan now tr))
    as (Hfiles & _).
  destruct (traverse_recorded rootPath token tree rootPath
              (countFiles token tree rootPath (initialScan now tr)))
    as (more & E & Hrecorded).
  rewrite E, Hfiles in Hin. simpl in Hin.
  rewrite Forall_forall in Hrecorded. exact (Hrecorded f Hin).
Qed.

Lemma collected_records_are_files_of_the_tree_witness :
  exists prefix fullPath name linePrefix fileSize mtime text,
    fileAt "/work" Samples.project "/work" prefix fullPath name linePrefix
           fileSize mtime (Some text) /\
    Samples.a_ts = recordOf "/work" fullPath fileSize mtime text /\
    isBinaryPath fullPath = false /\
    (fileSize <= maxFileSizeBytes)%N.
Proof.
  apply (collected_records_are_files_of_the_tree
           "/work" (Some 10) Samples.project 0 [firstReport] Samples.a_ts).
  left. reflexivity.
Defined.

Lemma fileAt_any_prefix rootPath n dir prefix fullPath name linePrefix
      fileSize mtime text :
  fileAt rootPath n dir prefix fullPath name linePrefix fileSize mtime text ->
  forall prefix', exists linePrefix',
    fileAt rootPath n dir prefix' fullPath name linePrefix' fileSize mtime text.
Proof.
  induction 1 as [| ? ? ? ? ? ? ? ? ? ? ? Hin Hq Hp _ IH]; intros prefix'.
  - eexists. now constructor.
  - destruct (IH (prefix' ++ "  ")) as [q Hq'].
    exists q. eapply fileAt_below; eauto.
Qed.

Lemma fileAt_entryOf rootPath n dir prefix fullPath name linePrefix
      fileSize mtime text :
  fileAt rootPath n dir prefix fullPath name linePrefix fileSize mtime text ->
  inside rootPath dir ->
  entryOf name (Path.relative rootPath fullPath).
Proof.
  induction 1 as [| ? ? ? ? ? ? ? ? ? ? ? _ _ _ _ IH]; intros Hinside.
  - now apply PathFacts.inside_step.
  - apply IH. now apply PathFacts.inside_step.
Qed.

(** On a readable tree the structure listing is produced, and every file
    that [collectFiles] has collected, under any token, has its line there:
    some indentation, the file marker and the last part of the record's
    path. *)
Theorem collected_files_are_listed :
  forall (localeCompare : string -> string -> Z) (rootPath : string)
         (token : CancellationToken) (tree : node) (now : nat)
         (tr : list effect) (f : FileData),
    readable tree = true ->
    In f (collectFiles rootPath token tree now tr) ->
    exists lines linePrefix name,
      getProjectStructure localeCompare rootPath tree
        = Ok (Str.join Str.nl lines) /\
      In (linePrefix ++ fileMarker ++ name) lines /\
      (path f = name \/ exists rel, path f = Path.join rel name).
Proof.
  intros localeCompare rootPath token tree now tr f Hreadable Hin.
  assert (Hrecorded : recorded rootPath tree rootPath f).
  { unfold collectFiles, collectFilesRun in Hin.
    destruct (countFiles_counted token tree rootPath (initialScan now tr))
      as (Hfiles & _).
    destruct (traverse_recorded rootPath token tree rootPath
                (countFiles token tree rootPath (initialScan now tr)))
      as (more & E & Hmore).
    rewrite E, Hfiles in Hin. simpl in Hin.
    rewrite Forall_forall in Hmore. exact (Hmore f Hin). }
  destruct Hrecorded
    as (prefix & fullPath & name & linePrefix & fileSize & mtime & text
        & Hat & -> & Hbinary & _).
  destruct (fileAt_any_prefix _ _ _ _ _ _ _ _ _ _ Hat EmptyString)
    as [linePrefix' Hat'].
  destruct (structureTraverse_succeeds rootPath localeCompare tree Hreadable
              (fileAt_directory _ _ _ _ _ _ _ _ _ _ Hat)
              rootPath EmptyString []) as [lines Hlines].
  exists lines, linePrefix', name. unfold getProjectStructure.
  rewrite Hlines. split; [reflexivity|]. split.
  - exact (structureTraverse_lists rootPath localeCompare _ _ _ _ _ _ _ _ _
             Hat' Hbinary lines Hlines).
  - apply (fileAt_entryOf _ _ _ _ _ _ _ _ _ _ Hat). now left.
Qed.

Lemma collected_files_are_listed_witness :
  exists lines linePrefix name,
    getProjectStructure Samples.byCode "/work" Samples.project
      = Ok (Str.join Str.nl lines) /\
    In (linePrefix ++ fileMarker ++ name) lines /\
    (path Samples.a_ts = name \/ exists rel, path Samples.a_ts = Path.join rel name).
Proof.
  apply (collected_files_are_listed Samples.byCode "/work" None
           Samples.project 0 [] Samples.a_ts).
  - reflexivity.
  - left. reflexivity.
Defined.

Lemma Forall_concat {A : Type} (P : A -> Prop) (ls : list (list A)) :
  Forall (Forall P) ls -> Forall P (concat ls).
Proof.
  induction 1 as [|l ls Hl _ IH]; simpl; [constructor|].
  apply Forall_app. auto.
Qed.

Lemma structureLine_deeper (prefix line : string) :
  structureLine (prefix ++ "  ") line -> structureLine prefix line.
Proof.
  intros (depth & marker & name & Hmarker & ->).
  exists (S depth), marker, name. split; [exact Hmarker|].
  cbn [Str.repeat]. now rewrite !StrFacts.append_assoc.
Qed.

Lemma blocks_are_indented localeCompare rootPath dir prefix children blocks :
  Forall2 (blockOf localeCompare rootPath dir prefix) children blocks ->
  Forall (fun child =>
            forall below,
              structureTraverse localeCompare rootPath (snd child)
                (Path.join dir (fst child)) (prefix ++ "  ") [] = Ok below ->
              Forall (structureLine (prefix ++ "  ")) below) children ->
  Forall (Forall (structureLine prefix)) blocks.
Proof.
  induction 1 as [|child block children blocks Hblock _ IH]; intros Hall;
    [constructor|].
  apply Forall_cons_iff in Hall as [Hchild Hrest].
  constructor; [|now apply IH].
  destruct Hblock as (below & -> & Hbelow).
  constructor.
  - exists 0, (if isDirectoryNode (snd child) then dirMarker else fileMarker),
           (fst child).
    split; [destruct (isDirectoryNode (snd child)); auto | reflexivity].
  - destruct (isDirectoryNode (snd child)); [|subst below; constructor].
    eapply Forall_impl; [|exact (Hchild _ Hbelow)].
    intros line. apply structureLine_deeper.
Qed.

(** Every line of a structure listing is the prefix of the call followed by
    a whole number of two-space steps, one of the two markers and a name. *)
Theorem structure_lines_are_indented_entries :
  forall (localeCompare : string -> string -> Z) (rootPath : string)
         (n : node) (dir prefix : string) (lines : list string),
    structureTraverse localeCompare rootPath n dir prefix [] = Ok lines ->
    Forall (structureLine prefix) lines.
Proof.
  intros localeCompare rootPath n.
  induction n as [fileSize mtime text | | listing IH | ] using node_induction;
    intros dir prefix lines H; try discriminate.
  destruct (structureTraverse_blocks _ _ _ _ _ _ _ H)
    as (sorted & blocks & _ & Hperm & Hblocks & ->).
  simpl. apply Forall_concat.
  apply (blocks_are_indented _ _ _ _ _ _ Hblocks).
  apply Forall_forall. intros child Hchild below Hbelow.
  apply (Permutation_in _ Hperm) in Hchild.
  apply filter_In in Hchild as [Hchild _].
  rewrite Forall_forall in IH. exact (IH _ Hchild _ _ _ Hbelow).
Qed.

Lemma structure_lines_are_indented_entries_witness :
  Forall (structureLine EmptyString) Samples.unorderedLines.
Proof.
  apply (structure_lines_are_indented_entries Samples.byCode "/work"
           (Directory (Some Samples.unordered)) "/work" EmptyString).
  vm_compute. reflexivity.
Defined.

(** On a readable tree, that is where [stat] fails on no entry and every
    directory can be listed, [getProjectStructure] does not throw: it returns
    the lines of the traversal joined by line feeds. *)
Theorem getProjectStructure_succeeds_on_readable_tree :
  forall (localeCompare : string -> string -> Z) (rootPath : string)
         (tree : node),
    readable tree = true ->
    isDirectoryNode tree = true ->
    exists lines,
      structureTraverse localeCompare rootPath tree rootPath EmptyString []
        = Ok lines /\
      getProjectStructure localeCompare rootPath tree
        = Ok (Str.join Str.nl lines).
Proof.
  intros localeCompare rootPath tree Hreadable Hdir.
  destruct (structureTraverse_succeeds rootPath localeCompare tree Hreadable Hdir
              rootPath EmptyString []) as [lines Hlines].
  exists lines. split; [exact Hlines|].
  unfold getProjectStructure. now rewrite Hlines.
Qed.

Lemma getProjectStructure_succeeds_on_readable_tree_witness :
  exists lines,
    structureTraverse Samples.byCode "/work" Samples.project "/work" EmptyString []
      = Ok lines /\
    getProjectStructure Samples.byCode "/work" Samples.project
      = Ok (Str.join Str.nl lines).
Proof.
  apply (getProjectStructure_succeeds_on_readable_tree
           Samples.byCode "/work" Samples.project); reflexivity.
Defined.

(** ** The structure listing does not depend on the order of [readdir] *)

Lemma sorted_permutation_unique {A : Type} (R : A -> A -> Prop) :
  forall l l',
    StronglySorted R l -> StronglySorted R l' -> Permutation l l' ->
    (forall x y, In x l -> In y l -> R x y -> R y x -> x = y) ->
    l = l'.
Proof.
  induction l as [|a l IH]; intros l' Hs Hs' Hperm Hanti.
  - apply Permutation_nil in Hperm. now subst.
  - destruct l' as [|b l'].
    { apply Permutation_sym, Permutation_nil in Hperm. discriminate. }
    apply StronglySorted_inv in Hs as [Hs Ha].
    apply StronglySorted_inv in Hs' as [Hs' Hb].
    rewrite Forall_forall in Ha, Hb.
    assert (Eab : a = b).
    { assert (Ha' : In a (b :: l')).
      { apply (Permutation_in _ Hperm). now left. }
      assert (Hb' : In b (a :: l)).
      { apply (Permutation_in _ (Permutation_sym Hperm)). now left. }
      destruct Ha' as [<- | Ha']; [reflexivity|].
      destruct Hb' as [<- | Hb']; [reflexivity|].
      apply Hanti; [now left | now right | now apply Ha | now apply Hb]. }
    subst b. f_equal. apply IH; auto.
    + now apply Permutation_cons_inv in Hperm.
    + intros x y Hx Hy. apply Hanti; now right.
Qed.

(** Two listings of the same entries, in whatever order [readdir] returns
    them, give the same structure listing, provided no name occurs twice,
    [stat] fails on no entry and the collation is a total order on the
    names. *)
Theorem structure_is_independent_of_listing_order :
  forall (localeCompare : string -> string -> Z) (rootPath : string)
         (listing listing' : list (string * node))
         (dir prefix : string) (items : list string),
    (forall a b, (localeCompare a b <= 0)%Z \/ (localeCompare b a <= 0)%Z) ->
    (forall a b c, (localeCompare a b <= 0)%Z -> (localeCompare b c <= 0)%Z ->
                   (localeCompare a c <= 0)%Z) ->
    (forall a b, In a (map fst listing) -> In b (map fst listing) ->
                 (localeCompare a b <= 0)%Z -> (localeCompare b a <= 0)%Z ->
                 a = b) ->
    NoDup (map fst listing) ->
    Forall (fun e => stat (snd e) <> None) listing ->
    Permutation listing listing' ->
    structureTraverse localeCompare rootPath (Directory (Some listing'))
                      dir prefix items
    = structureTraverse localeCompare rootPath (Directory (Some listing))
                        dir prefix items.
Proof.
  intros localeCompare rootPath listing listing' dir prefix items
         Htotal Htrans Hanti Hnodup Hstat Hperm.
  rewrite !structureTraverse_directory.
  set (annotate := fun e : string * node =>
                     (fst e, snd e, structureTraverse localeCompare rootPath (snd e))).
  set (P := fun e : entry => exists s, stat (entryNode e) = Some s).
  assert (Hcmp : forall a b : entry, P a -> P b ->
                   exists c, compareEntries localeCompare dir a b = Ok c).
  { intros a b [sa Ha] [sb Hb].
    unfold compareEntries, statSyncIsDirectory. rewrite Ha, Hb. cbn [bind].
    destruct (_ && _); [eauto|]. destruct (_ && _); eauto. }
  assert (HP : Forall P (@map (string * node) entry annotate listing)).
  { apply Forall_map. eapply Forall_impl; [|exact Hstat].
    intros e He. unfold P, annotate, entryNode. simpl.
    destruct (stat (snd e)) eqn:E; [eauto | congruence]. }
  assert (Hperm' : Permutation (@map (string * node) entry annotate listing)
                               (@map (string * node) entry annotate listing'))
    by now apply Permutation_map.
  destruct (sort_succeeds (compareEntries localeCompare dir) P Hcmp _ HP)
    as [sorted Hsort].
  destruct (sort_succeeds (compareEntries localeCompare dir) P Hcmp _
              (Permutation_Forall Hperm' HP)) as [sorted' Hsort'].
  rewrite Hsort, Hsort'. cbn [bind].
  assert (Hsorted : forall l s,
             sort (compareEntries localeCompare dir) l = Ok s ->
             StronglySorted
               (fun a b : entry => entryBefore localeCompare (fst a) (fst b)) s).
  { intros l s. apply sort_sorted.
    - intros x y z. now apply entryBefore_trans.
    - now apply compareEntries_before. }
  assert (Hp := sort_permutation _ _ _ Hsort).
  assert (Hp' := sort_permutation _ _ _ Hsort').
  replace sorted' with sorted; [reflexivity|].
  apply (sorted_permutation_unique
           (fun a b : entry => entryBefore localeCompare (fst a) (fst b)));
    eauto.
  - eapply perm_trans; [apply Permutation_sym, Hp|].
    eapply perm_trans; [exact Hperm' | exact Hp'].
  - intros x y Hx Hy Hxy Hyx.
    apply (Permutation_in _ (Permutation_sym Hp)) in Hx, Hy.
    apply in_map_iff in Hx as (ex & <- & Hex).
    apply in_map_iff in Hy as (ey & <- & Hey).
    assert (Ename : fst ex = fst ey).
    { unfold annotate, entryBefore in Hxy, Hyx. simpl in Hxy, Hyx.
      destruct Hxy as [[H1 H2] | [H1 H2]], Hyx as [[H3 H4] | [H3 H4]];
        try congruence.
      apply Hanti; auto; now apply in_map. }
    destruct ex as [name nx], ey as [name' ny]. simpl in Ename. subst name'.
    now rewrite (listing_unique _ _ _ _ Hnodup Hex Hey).
Qed.

Lemma byCode_antisym (a b : string) :
  (Samples.byCode a b <= 0)%Z -> (Samples.byCode b a <= 0)%Z -> a = b.
Proof.
  unfold Samples.byCode. destruct (String.compare a b) eqn:E.
  - intros _ _. now apply String_as_OT.cmp_eq.
  - rewrite (String.compare_antisym b a), E. simpl. lia.
  - lia.
Qed.

Lemma structure_is_independent_of_listing_order_witness :
  structureTraverse Samples.byCode "/work"
    (Directory (Some (rev Samples.unordered))) "/work" EmptyString []
  = structureTraverse Samples.byCode "/work"
      (Directory (Some Samples.unordered)) "/work" EmptyString [].
Proof.
  apply (structure_is_independent_of_listing_order Samples.byCode "/work"
           Samples.unordered (rev Samples.unordered) "/work" EmptyString []).
  - apply byCode_total.
  - apply byCode_trans.
  - intros a b _ _. apply byCode_antisym.
  - simpl. repeat constructor; simpl; intuition discriminate.
  - repeat constructor; discriminate.
  - apply Permutation_rev.
Defined.

(** ** The shape of the Text and Markdown documents *)

Lemma fold_left_sections (section : FileData -> string)
      (step : string -> FileData -> string) :
  (forall out file, step out file = out ++ section file) ->
  forall records out,
    fold_left step records out = out ++ flatten (map section records).
Proof.
  intros Hstep records. induction records as [|file records IH]; intros out;
    simpl.
  - now rewrite StrFacts.append_nil_r.
  - now rewrite IH, Hstep, StrFacts.append_assoc.
Qed.

(** In Text and in Markdown format the document is a header that holds the
    structure text, followed by one section for each record, in the order
    of the records, and nothing else. *)
Theorem document_is_header_and_sections :
  forall (now : Z) (files : list FileData) (structure : string),
    formatOutput now files structure Text
      = textHeader structure ++ flatten (map textSection files) /\
    formatOutput now files structure Markdown
      = markdownHeader structure ++ flatten (map markdownSection files).
Proof.
  intros now files structure. split; unfold formatOutput.
  - rewrite (fold_left_sections textSection).
    + unfold textHeader. now rewrite !StrFacts.append_assoc.
    + intros out file. unfold textSection. now rewrite !StrFacts.append_assoc.
  - rewrite (fold_left_sections markdownSection).
    + unfold markdownHeader. now rewrite !StrFacts.append_assoc.
    + intros out file. unfold markdownSection.
      now rewrite !StrFacts.append_assoc.
Qed.

Lemma list_not_its_own_tail {A : Type} (x : A) (l : list A) : x :: l <> l.
Proof.
  intros E. apply (f_equal (@length A)) in E. simpl in E. lia.
Qed.

(** The Text format does not escape its banners: two records, one after the
    other, render exactly as the one record whose text holds the end of the
    first section and the banner of the second, so the document does not
    tell the two lists of records apart. *)
Theorem text_document_is_ambiguous :
  forall (now : Z) (f g : FileData) (files : list FileData)
         (structure : string),
    f :: g :: files <> mergedRecord f g :: files /\
    formatOutput now (f :: g :: files) structure Text
    = formatOutput now (mergedRecord f g :: files) structure Text.
Proof.
  intros now f g files structure. split.
  - intros E. injection E as _ E. now apply list_not_its_own_tail in E.
  - unfold formatOutput.
    rewrite !(fold_left_sections textSection)
      by (intros out file; unfold textSection;
          now rewrite !StrFacts.append_assoc).
    f_equal. cbn [map flatten fold_right].
    rewrite <- StrFacts.append_assoc. f_equal.
    unfold textSection, mergedRecord. cbn [path content].
    now rewrite !StrFacts.append_assoc.
Qed.

(** ** What an export writes and what it reports *)

(** On a readable tree, with no cancellation and a sink that accepts the
    write, an export writes one document, to the chosen path: the rendering
    of the collected records and of the structure text in the chosen format.
    Before the write come the reports of the scan, the count of the records
    and the saving report; after it the completion message; no error is
    raised. *)
Theorem export_writes_the_rendered_document :
  forall (localeCompare : string -> string -> Z) (w : Workbench)
         (rootPath : string) (others : list string) (fsPath : string)
         (format : ExportFormat),
    workspaceFolders w = Some (rootPath :: others) ->
    pickedFormat w = Some format ->
    savePath w = Some fsPath ->
    cancellation w = None ->
    writeFails w = false ->
    readable (root w) = true ->
    isDirectoryNode (root w) = true ->
    exists scanning structure,
      getProjectStructure localeCompare rootPath (root w) = Ok structure /\
      Forall (fun e => match e with
                       | ConsoleWarn _ _ | ProgressReport _ _ => True
                       | _ => False
                       end) scanning /\
      let found := collectFiles rootPath None (root w) 0 [firstReport] in
      exportProject localeCompare w =
        ((firstReport :: scanning) ++
         [ ProgressReport ("Found " ++ Str.ofNat (length found)
                           ++ " files. Generating output...") (divide 50 1);
           ProgressReport "Saving file..." (divide 75 1);
           WriteFile fsPath (formatOutput (clock w) found structure format);
           ShowInformationMessage
             ("Export complete! Processed " ++ Str.ofNat (length found)
              ++ " files in " ++ elapsed w ++ "s") ],
         Ok tt)%list.
Proof.
  intros localeCompare w rootPath others fsPath format
         Hroot Hformat Hsave Htoken Hwrite Hreadable Hdir.
  destruct (structureTraverse_succeeds rootPath localeCompare (root w)
              Hreadable Hdir rootPath EmptyString []) as [lines Hlines].
  assert (Hstructure : getProjectStructure localeCompare rootPath (root w)
                       = Ok (Str.join Str.nl lines)).
  { unfold getProjectStructure. now rewrite Hlines. }
  destruct (collectFilesRun_trace rootPath None (root w) 0 [firstReport])
    as (scanning & Etrace & Hscanning).
  exists scanning, (Str.join Str.nl lines).
  split; [exact Hstructure|]. split; [exact Hscanning|]. cbv zeta.
  unfold exportProject. rewrite Hroot, Hformat, Hsave. unfold exportTask.
  rewrite Htoken. fold firstReport. cbn [isCancellationRequested].
  rewrite Hstructure, Hwrite. unfold collectFiles, push.
  rewrite Etrace. cbn [app]. now rewrite <- !app_assoc.
Qed.

Lemma export_writes_the_rendered_document_witness :
  exists scanning structure,
    getProjectStructure Samples.byCode "/work" Samples.project = Ok structure /\
    Forall (fun e => match e with
                     | ConsoleWarn _ _ | ProgressReport _ _ => True
                     | _ => False
                     end) scanning /\
    let found := collectFiles "/work" None Samples.project 0 [firstReport] in
    exportProject Samples.byCode (Samples.exportOf Samples.project) =
      ((firstReport :: scanning) ++
       [ ProgressReport ("Found " ++ Str.ofNat (length found)
                         ++ " files. Generating output...") (divide 50 1);
         ProgressReport "Saving file..." (divide 75 1);
         WriteFile "/work/project-export.txt"
                   (formatOutput 1700000000000 found structure Text);
         ShowInformationMessage
           ("Export complete! Processed " ++ Str.ofNat (length found)
            ++ " files in " ++ "0.1" ++ "s") ],
       Ok tt)%list.
Proof.
  apply (export_writes_the_rendered_document
           Samples.byCode (Samples.exportOf Samples.project)
           "/work" [] "/work/project-export.txt" Text); reflexivity.
Defined.


(** ** A failing [stat] ends the directory *)

Lemma countLoop_stops_at_failing_stat :
  forall token recurse dir item child rest before st,
    stat child = None ->
    isQuickIgnored item = false ->
    countLoop token recurse dir (before ++ (item, child) :: rest)%list st
    = countLoop token recurse dir (before ++ [(item, child)])%list st.
Proof.
  intros token recurse dir item child rest before st Hstat Hquick.
  revert st. induction before as [|[i c] before IH]; intro st.
  - simpl. now rewrite Hquick, Hstat.
  - simpl.
    destruct (isCancellationRequested token (ticks st)); [reflexivity|].
    destruct (isQuickIgnored i); [apply IH|].
    destruct (stat c) as [s|]; [|reflexivity].
    destruct (isDirectory s); apply IH.
Qed.

Lemma traverseLoop_stops_at_failing_stat :
  forall rootPath token recurse dir item child rest before st,
    stat child = None ->
    isQuickIgnored item = false ->
    isPatternIgnored (Path.relative rootPath (Path.join dir item)) = false ->
    traverseLoop rootPath token recurse dir
                 (before ++ (item, child) :: rest)%list st
    = traverseLoop rootPath token recurse dir
                   (before ++ [(item, child)])%list st.
Proof.
  intros rootPath token recurse dir item child rest before st
         Hstat Hquick Hpattern.
  revert st. induction before as [|[i c] before IH]; intro st.
  - simpl. now rewrite Hquick, Hpattern, Hstat.
  - simpl.
    destruct (isCancellationRequested token (ticks st)); [reflexivity|].
    destruct (isQuickIgnored i); [apply IH|].
    destruct (isPatternIgnored (Path.relative rootPath (Path.join dir i)));
      [apply IH|].
    destruct (stat c) as [s|]; [|reflexivity].
    destruct (isDirectory s); apply IH.
Qed.

(** When [stat] fails on an entry of the root that no filter ignores, the
    entries listed after it are neither counted nor scanned: the run ends in
    the state, with the records, the counters and the trace, of a run on the
    listing cut after that entry. *)
Theorem entries_after_a_failing_stat_are_dropped :
  forall (rootPath : string) (token : CancellationToken)
         (before rest : list (string * node)) (item : string) (child : node)
         (now : nat) (tr : list effect),
    stat child = None ->
    isQuickIgnored item = false ->
    isPatternIgnored (Path.relative rootPath (Path.join rootPath item)) = false ->
    collectFilesRun rootPath token
      (Directory (Some (before ++ (item, child) :: rest)%list)) now tr
    = collectFilesRun rootPath token
        (Directory (Some (before ++ [(item, child)])%list)) now tr.
Proof.
  intros rootPath token before rest item child now tr Hstat Hquick Hpattern.
  unfold collectFilesRun. cbn [countFiles traverse].
  rewrite (countLoop_stops_at_failing_stat
             token (countFiles token) rootPath item child rest before _
             Hstat Hquick).
  apply traverseLoop_stops_at_failing_stat; assumption.
Qed.

Lemma entries_after_a_failing_stat_are_dropped_witness :
  collectFilesRun "/work" None Samples.dangling 0 []
  = collectFilesRun "/work" None
      (Directory (Some ([] ++ [("link", Unreachable)])%list)) 0 [].
Proof.
  exact (entries_after_a_failing_stat_are_dropped
           "/work" None [] [("b.ts", Samples.source 10 "let b = 2;")]
           "link" Unreachable 0 [] eq_refl eq_refl eq_refl).
Defined.

(** ** The numbering of the progress reports *)

Lemma numbered_app total first paths1 paths2 :
  numbered total first (paths1 ++ paths2)%list
  = (numbered total first paths1
     ++ numbered total (first + length paths1) paths2)%list.
Proof.
  revert first. induction paths1 as [|p paths1 IH]; intro first; simpl.
  - now rewrite Nat.add_0_r.
  - rewrite IH. now rewrite Nat.add_succ_r.
Qed.

Lemma numbers_refl st : numbers st st.
Proof.
  split; [reflexivity|]. exists [], []. simpl.
  now rewrite app_nil_r, Nat.add_0_r.
Qed.

Lemma numbers_trans st1 st2 st3 :
  numbers st1 st2 -> numbers st2 st3 -> numbers st1 st3.
Proof.
  intros (T1 & more1 & paths1 & E1 & R1 & S1)
         (T2 & more2 & paths2 & E2 & R2 & S2).
  split; [congruence|].
  exists (more1 ++ more2)%list, (paths1 ++ paths2)%list.
  split; [|split].
  - now rewrite E2, E1, app_assoc.
  - unfold reports in *. rewrite flat_map_app, R1, R2, numbered_app.
    now rewrite T1, S1.
  - rewrite S2, S1, length_app. lia.
Qed.

Lemma numbers_tick st : numbers st (tick st).
Proof.
  split; [reflexivity|]. exists [], []. simpl.
  now rewrite app_nil_r, Nat.add_0_r.
Qed.

Lemma numbers_warn message cause st :
  numbers st (emit (ConsoleWarn message cause) st).
Proof.
  split; [reflexivity|]. exists [ConsoleWarn message cause], []. simpl.
  now rewrite Nat.add_0_r.
Qed.

Lemma numbers_pushFile f st : numbers st (pushFile f st).
Proof.
  split; [reflexivity|]. exists [], []. simpl.
  now rewrite app_nil_r, Nat.add_0_r.
Qed.

Lemma numbers_report relativePath st :
  numbers st (reportScanning relativePath (incrScannedFiles (tick st))).
Proof.
  split; [reflexivity|].
  exists [ProgressReport
            (scanningMessage relativePath (incrScannedFiles (tick st)))
            (divide 100 (N.of_nat (totalFiles st)))],
         [relativePath].
  split; [reflexivity|]. split; [reflexivity|]. simpl. lia.
Qed.

Lemma numbers_scanFile child fullPath relativePath s st :
  numbers st (scanFile child fullPath relativePath s st).
Proof.
  unfold scanFile.
  destruct (maxFileSizeBytes <? statSize s)%N; [apply numbers_warn|].
  destruct (negb (isBinaryPath fullPath)); [|apply numbers_refl].
  destruct (readFile child).
  - eapply numbers_trans; [apply numbers_tick | apply numbers_pushFile].
  - eapply numbers_trans; [apply numbers_tick | apply numbers_warn].
Qed.

Lemma traverseLoop_numbers rootPath token recurse dir items :
  Forall (fun e => forall d st, numbers st (recurse (snd e) d st)) items ->
  forall st, numbers st (traverseLoop rootPath token recurse dir items st).
Proof.
  induction 1 as [|[item child] rest Hchild _ IH]; intros st; simpl.
  { apply numbers_refl. }
  destruct (isCancellationRequested token (ticks st)); [apply numbers_refl|].
  destruct (isQuickIgnored item); [apply IH|].
  destruct (isPatternIgnored _); [apply IH|].
  destruct (stat child) as [s|].
  - destruct (isDirectory s).
    + eapply numbers_trans; [apply numbers_report|].
      eapply numbers_trans; [apply Hchild | apply IH].
    + eapply numbers_trans; [apply numbers_report|].
      eapply numbers_trans; [apply numbers_scanFile | apply IH].
  - eapply numbers_trans; [apply numbers_tick | apply numbers_warn].
Qed.

Lemma traverse_numbers rootPath token (n : node) :
  forall dir st, numbers st (traverse rootPath token n dir st).
Proof.
  induction n as [fileSize mtime text | | items IH | ] using node_induction;
    intros dir st; simpl;
    try (eapply numbers_trans; [apply numbers_tick | apply numbers_warn]).
  eapply numbers_trans; [apply numbers_tick|].
  apply (traverseLoop_numbers rootPath token (traverse rootPath token)
                              dir items IH).
Qed.

(** The counting pass reports nothing and leaves [scannedFiles] alone. *)
Lemma countLoop_silent token recurse dir items :
  Forall (fun e => forall d st,
              scannedFiles (recurse (snd e) d st) = scannedFiles st /\
              exists more, trace (recurse (snd e) d st) = (trace st ++ more)%list
                           /\ reports more = []) items ->
  forall st,
    scannedFiles (countLoop token recurse dir items st) = scannedFiles st /\
    exists more, trace (countLoop token recurse dir items st)
                 = (trace st ++ more)%list /\ reports more = [].
Proof.
  assert (Hrefl : forall st : scan,
             scannedFiles st = scannedFiles st /\
             exists more, trace st = (trace st ++ more)%list /\ reports more = []).
  { intro st. split; [reflexivity|]. exists []. now rewrite app_nil_r. }
  induction 1 as [|[item child] rest Hchild _ IH]; intros st; simpl.
  { apply Hrefl. }
  destruct (isCancellationRequested token (ticks st)); [apply Hrefl|].
  destruct (isQuickIgnored item); [apply IH|].
  destruct (stat child) as [s|].
  - destruct (isDirectory s).
    + destruct (IH (recurse child (Path.join dir item) (tick st)))
        as (S2 & more2 & E2 & R2).
      destruct (Hchild (Path.join dir item) (tick st)) as (S1 & more1 & E1 & R1).
      simpl in S1, E1. split; [congruence|].
      exists (more1 ++ more2)%list. rewrite E2, E1, app_assoc.
      split; [reflexivity|]. unfold reports in *.
      now rewrite flat_map_app, R1, R2.
    + apply (IH (incrTotalFiles (tick st))).
  - split; [reflexivity|]. eexists. split; [reflexivity|]. reflexivity.
Qed.

Lemma countFiles_silent token (n : node) :
  forall dir st,
    scannedFiles (countFiles token n dir st) = scannedFiles st /\
    exists more, trace (countFiles token n dir st) = (trace st ++ more)%list
                 /\ reports more = [].
Proof.
  induction n as [fileSize mtime text | | items IH | ] using node_induction;
    intros dir st; simpl;
    try (split; [reflexivity|]; eexists; split; reflexivity).
  apply (countLoop_silent token (countFiles token) dir items IH (tick st)).
Qed.

(** The progress reports of a run of [collectFiles], cancelled or not, are
    one per entry it scanned, numbered 1, 2, 3, ... in the order of the
    scan; all of them carry the total the counting pass left and the
    increment 100 / total, and [scannedFiles] ends as their number. *)
Theorem progress_reports_are_numbered :
  forall (rootPath : string) (token : CancellationToken) (tree : node)
         (now : nat) (tr : list effect),
    exists added paths,
      trace (collectFilesRun rootPath token tree now tr) = (tr ++ added)%list /\
      reports added
      = numbered (totalFiles (collectFilesRun rootPath token tree now tr))
                 0 paths /\
      scannedFiles (collectFilesRun rootPath token tree now tr) = length paths.
Proof.
  intros rootPath token tree now tr. unfold collectFilesRun.
  destruct (countFiles_silent token tree rootPath (initialScan now tr))
    as (S0 & more0 & E0 & R0).
  destruct (traverse_numbers rootPath token tree rootPath
              (countFiles token tree rootPath (initialScan now tr)))
    as (T1 & more1 & paths & E1 & R1 & S1).
  exists (more0 ++ more1)%list, paths. simpl in S0, E0.
  split; [|split].
  - now rewrite E1, E0, app_assoc.
  - unfold reports in *. rewrite flat_map_app, R0, R1, T1, S0. reflexivity.
  - now rewrite S1, S0.
Qed.
